(** * chz-scout-frontend: the tag autocomplete controller

    A shallow embedding of the autocomplete code of the dashboard:

    - [src/services/tagService.ts]      ([fetchTagAutocomplete]),
    - [src/hooks/useDebounce.ts]        ([useDebounce]),
    - [src/hooks/useTagAutocomplete.ts] ([useTagAutocomplete], [fetchSuggestions]),
    - [src/components/TagAutocomplete.tsx] (the component, its handlers and
      [formatUsageCount]).

    The React component is modelled as a state machine.  A state holds the
    props, the [useState] cells of the two hooks and of the component, the
    pending [setTimeout] of [useDebounce] and the promises that
    [fetchSuggestions] is awaiting.  One transition is one browser event (a
    re-render with new props, a key, a click, a timer, a settled promise)
    together with the state updates and the effects React runs for it, so
    the states are those in which no effect is pending; what the controller
    does to its collaborators (calls of the callbacks, calls of the
    suggestion source) is the output of the transition.  The [value] prop is
    owned by the caller: [onChange] is an output, and a new value is an
    event of its own.  Time is counted in milliseconds since the mount. *)

From Stdlib Require Import ZArith List String Ascii Bool Lia DecimalString
  Permutation.
From Stdlib Require Import Floats.SpecFloat.
From stdpp Require Import base option list gmap strings.

Local Open Scope Z_scope.

(* ================================================================= *)
(** ** JavaScript strings and numbers *)

(** Strings are sequences of code units; the model covers the code units
    below 256 (Rocq's [ascii]).  Among these, [String.prototype.trim]
    removes TAB, LF, VT, FF, CR, SPACE and NBSP. *)
Module Js.

Definition is_ws (c : ascii) : bool :=
  let n := nat_of_ascii c in
  ((9 <=? n)%nat && (n <=? 13)%nat) || (n =? 32)%nat || (n =? 160)%nat.

Fixpoint trimStart (s : string) : string :=
  match s with
  | EmptyString => EmptyString
  | String c r => if is_ws c then trimStart r else s
  end.

Definition trimEnd (s : string) : string :=
  String.rev (trimStart (String.rev s)).

Definition trim (s : string) : string := trimEnd (trimStart s).

(** Truthiness of a string: every string but the empty one. *)
Definition truthy (s : string) : bool :=
  match s with EmptyString => false | String _ _ => true end.

(** A string made of white space only. *)
Fixpoint all_ws (s : string) : bool :=
  match s with
  | EmptyString => true
  | String c r => is_ws c && all_ws r
  end.

(** [Number.prototype.toString] of an integer of magnitude below 1e21:
    the decimal digits, with a minus sign when negative. *)
Definition toString (n : Z) : string := NilZero.string_of_int (Z.to_int n).

(** A settled promise. [Thrown] is what a [catch] clause receives: an
    [Error] instance with its message, or any other value. *)
Inductive Thrown : Type :=
| ErrorObject (message : string)
| OtherValue.

Inductive Settled (A : Type) : Type :=
| Fulfilled (a : A)
| Rejected (e : Thrown).
Arguments Fulfilled {A} a.
Arguments Rejected {A} e.

End Js.

(* ================================================================= *)
(** ** src/types/tag.ts *)

Inductive TagType : Type := CATEGORY | CUSTOM.

#[global] Instance TagType_eq_dec : EqDecision TagType.
Proof. solve_decision. Defined.

Definition TagType_str (t : TagType) : string :=
  match t with CATEGORY => "CATEGORY" | CUSTOM => "CUSTOM" end.

Record TagAutocompleteResult : Type := mkResult {
  name : string;
  usageCount : Z
}.

Record TagAutocompleteParams : Type := mkParams {
  prefix : string;
  tagType : option TagType;
  limit : option Z
}.

(* ================================================================= *)
(** ** src/services/tagService.ts *)

Module TagService.
Import Js.

Record ApiError : Type := mkApiError { code : string; message : string }.

Record ApiResponse (T : Type) : Type := mkApiResponse {
  success : bool;
  data : option T;
  error : option ApiError
}.
Arguments mkApiResponse {T} _ _ _.
Arguments success {T} _.
Arguments data {T} _.
Arguments error {T} _.

(** A GET request: the path and the [URLSearchParams] entries, in order. *)
Record Request : Type := mkRequest {
  path : string;
  query : list (string * string)
}.

Definition Envelope : Type := ApiResponse (list TagAutocompleteResult).

(** The part of [fetchTagAutocomplete] before the [await]. *)
Definition suggestions_request (params : TagAutocompleteParams) : Request :=
  let limit := default 10 (limit params) in
  let queryParams := [("prefix", prefix params); ("limit", toString limit)]%string in
  let queryParams :=
    match tagType params with
    | Some t => queryParams ++ [("tagType", TagType_str t)]%string
    | None => queryParams
    end in
  mkRequest "/api/v1/tags/suggestions" queryParams.

(** The part after the [await]: [return response.data.data || []]; a
    rejection of [api.get] rejects the returned promise. *)
Definition suggestions_result (response : Settled Envelope)
  : Settled (list TagAutocompleteResult) :=
  match response with
  | Fulfilled env =>
      Fulfilled (match data env with Some l => l | None => [] end)
  | Rejected e => Rejected e
  end.

Definition fetchTagAutocomplete (api_get : Request -> Settled Envelope)
    (params : TagAutocompleteParams) : Settled (list TagAutocompleteResult) :=
  suggestions_result (api_get (suggestions_request params)).

End TagService.

(* ================================================================= *)
(** ** The controller: useDebounce, useTagAutocomplete, TagAutocomplete *)

Module Autocomplete.
Import Js.

(** [TagAutocomplete] calls the hook with [limit: 10, debounceDelay: 300]. *)
Definition debounceDelay : nat := 300.
Definition suggestionLimit : Z := 10.

Inductive Key : Type := ArrowDown | ArrowUp | Enter | Escape | OtherKey.

(** What a transition does to the collaborators of the controller. *)
Inductive Output : Type :=
| OnChange (v : string)                  (* onChange(v) *)
| OnSelect (tag : TagAutocompleteResult) (* onSelect(tag) *)
| Lookup (time : nat) (id : nat) (params : TagAutocompleteParams)
                                         (* fetchTagAutocomplete(params) *)
| ConsoleError (e : Thrown).             (* console.error(..., err) *)

Record Props : Type := mkProps {
  p_value : string;
  p_tagType : option TagType;
  p_onSelect : bool                      (* is an onSelect callback supplied *)
}.

Record State : Type := mkState {
  (* props of TagAutocomplete *)
  value : string;
  tagTypeProp : option TagType;
  hasOnSelect : bool;
  (* useDebounce: the state cell and the pending setTimeout, if any, as the
     value its callback captured and the time at which it is due *)
  debouncedValue : string;
  timer : option (string * nat);
  (* useTagAutocomplete *)
  suggestions : list TagAutocompleteResult;
  isLoading : bool;
  error : option string;
  (* TagAutocomplete *)
  isOpen : bool;
  selectedIndex : Z;
  (* the clock (ms since mount) and the promises fetchSuggestions awaits,
     by order of issue *)
  now : nat;
  inflight : gmap nat TagAutocompleteParams;
  nextId : nat;
  (* history variable: when the [value] prop last changed *)
  lastChange : nat
}.

Definition with_value (v : string) (s : State) : State :=
  mkState v (tagTypeProp s) (hasOnSelect s) (debouncedValue s) (timer s)
    (suggestions s) (isLoading s) (error s) (isOpen s) (selectedIndex s)
    (now s) (inflight s) (nextId s) (now s).

Definition with_tagType (t : option TagType) (s : State) : State :=
  mkState (value s) t (hasOnSelect s) (debouncedValue s) (timer s)
    (suggestions s) (isLoading s) (error s) (isOpen s) (selectedIndex s)
    (now s) (inflight s) (nextId s) (lastChange s).

Definition with_debouncedValue (v : string) (s : State) : State :=
  mkState (value s) (tagTypeProp s) (hasOnSelect s) v (timer s)
    (suggestions s) (isLoading s) (error s) (isOpen s) (selectedIndex s)
    (now s) (inflight s) (nextId s) (lastChange s).

Definition with_timer (t : option (string * nat)) (s : State) : State :=
  mkState (value s) (tagTypeProp s) (hasOnSelect s) (debouncedValue s) t
    (suggestions s) (isLoading s) (error s) (isOpen s) (selectedIndex s)
    (now s) (inflight s) (nextId s) (lastChange s).

Definition with_suggestions (l : list TagAutocompleteResult) (s : State) : State :=
  mkState (value s) (tagTypeProp s) (hasOnSelect s) (debouncedValue s) (timer s)
    l (isLoading s) (error s) (isOpen s) (selectedIndex s)
    (now s) (inflight s) (nextId s) (lastChange s).

Definition with_isLoading (b : bool) (s : State) : State :=
  mkState (value s) (tagTypeProp s) (hasOnSelect s) (debouncedValue s) (timer s)
    (suggestions s) b (error s) (isOpen s) (selectedIndex s)
    (now s) (inflight s) (nextId s) (lastChange s).

Definition with_error (e : option string) (s : State) : State :=
  mkState (value s) (tagTypeProp s) (hasOnSelect s) (debouncedValue s) (timer s)
    (suggestions s) (isLoading s) e (isOpen s) (selectedIndex s)
    (now s) (inflight s) (nextId s) (lastChange s).

Definition with_isOpen (b : bool) (s : State) : State :=
  mkState (value s) (tagTypeProp s) (hasOnSelect s) (debouncedValue s) (timer s)
    (suggestions s) (isLoading s) (error s) b (selectedIndex s)
    (now s) (inflight s) (nextId s) (lastChange s).

Definition with_selectedIndex (i : Z) (s : State) : State :=
  mkState (value s) (tagTypeProp s) (hasOnSelect s) (debouncedValue s) (timer s)
    (suggestions s) (isLoading s) (error s) (isOpen s) i
    (now s) (inflight s) (nextId s) (lastChange s).

Definition with_now (t : nat) (s : State) : State :=
  mkState (value s) (tagTypeProp s) (hasOnSelect s) (debouncedValue s) (timer s)
    (suggestions s) (isLoading s) (error s) (isOpen s) (selectedIndex s)
    t (inflight s) (nextId s) (lastChange s).

Definition with_inflight (m : gmap nat TagAutocompleteParams) (n : nat)
    (s : State) : State :=
  mkState (value s) (tagTypeProp s) (hasOnSelect s) (debouncedValue s) (timer s)
    (suggestions s) (isLoading s) (error s) (isOpen s) (selectedIndex s)
    (now s) m n (lastChange s).

(** *** TagAutocomplete: the effect on [suggestions]

    "Show dropdown when suggestions are available".  Every [setSuggestions]
    of the hook passes a fresh array, so the effect runs after each one. *)
Definition suggestions_effect (s : State) : State :=
  if (0 <? length (suggestions s))%nat
  then with_selectedIndex (-1) (with_isOpen true s)
  else with_isOpen false s.

Definition setSuggestions (l : list TagAutocompleteResult) (s : State) : State :=
  suggestions_effect (with_suggestions l s).

(** *** useTagAutocomplete: fetchSuggestions

    Up to the [await]: the blank query returns at once; otherwise the
    lookup is issued and its promise is awaited under a fresh id. *)
Definition fetchSuggestions (s : State) : State * list Output :=
  if negb (truthy (trim (debouncedValue s))) then
    (setSuggestions [] s, [])
  else
    let params :=
      mkParams (debouncedValue s) (tagTypeProp s) (Some suggestionLimit) in
    let id := nextId s in
    (with_inflight (<[id := params]> (inflight s)) (S id)
       (with_error None (with_isLoading true s)),
     [Lookup (now s) id params]).

Definition error_message (e : Thrown) : string :=
  match e with
  | ErrorObject m => m
  | OtherValue => "Failed to fetch suggestions"
  end.

(** After the [await]: the [try] continuation, the [catch] and the
    [finally] clause.  [results || []] is [results]: an array is truthy. *)
Definition fetchSuggestions_resume
    (r : Settled (list TagAutocompleteResult)) (s : State) : State * list Output :=
  match r with
  | Fulfilled results =>
      (with_isLoading false (setSuggestions results s), [])
  | Rejected e =>
      (with_isLoading false
         (setSuggestions [] (with_error (Some (error_message e)) s)),
       [ConsoleError e])
  end.

(** *** useDebounce

    The effect on [value, delay]: its cleanup clears the pending timeout and
    a new one is set.  The timeout's callback is [setDebouncedValue(value)];
    [fetchSuggestions] is rebuilt, and its effect run, only when the state
    cell changes. *)
Definition useDebounce_effect (v : string) (s : State) : State :=
  with_timer (Some (v, (now s + debounceDelay)%nat)) s.

Definition useDebounce_timeout (v : string) (s : State) : State * list Output :=
  let s := with_timer None s in
  if String.eqb v (debouncedValue s) then (s, [])
  else fetchSuggestions (with_debouncedValue v s).

Definition elapse (dt : nat) (s : State) : State * list Output :=
  let t' := (now s + dt)%nat in
  match timer s with
  | Some (v, due) =>
      if (due <=? t')%nat then
        let '(s1, out) := useDebounce_timeout v (with_now due s) in
        (with_now t' s1, out)
      else (with_now t' s, [])
  | None => (with_now t' s, [])
  end.

(** *** TagAutocomplete: handlers and rendering *)

Definition handleSelectTag (tag : TagAutocompleteResult) (s : State)
  : State * list Output :=
  (with_isOpen false s,
   OnChange (name tag) :: (if hasOnSelect s then [OnSelect tag] else [])).

Definition handleKeyDown (k : Key) (s : State) : State * list Output :=
  let len := Z.of_nat (length (suggestions s)) in
  if negb (isOpen s) || (len =? 0) then (s, [])
  else
    match k with
    | ArrowDown =>
        let prev := selectedIndex s in
        (with_selectedIndex (if prev <? len - 1 then prev + 1 else prev) s, [])
    | ArrowUp =>
        let prev := selectedIndex s in
        (with_selectedIndex (if prev >? 0 then prev - 1 else -1) s, [])
    | Enter =>
        if (selectedIndex s >=? 0) && (selectedIndex s <? len) then
          match suggestions s !! Z.to_nat (selectedIndex s) with
          | Some tag => handleSelectTag tag s
          | None => (s, [])
          end
        else (s, [])
    | Escape => (with_isOpen false s, [])
    | OtherKey => (s, [])
    end.

(** The two conditional blocks of the JSX and the spinner. *)
Definition dropdown_rendered (s : State) : bool :=
  isOpen s && (0 <? length (suggestions s))%nat.

Definition empty_state_rendered (s : State) : bool :=
  isOpen s && negb (isLoading s) && truthy (trim (value s))
  && (length (suggestions s) =? 0)%nat.

Definition spinner_rendered (s : State) : bool := isLoading s.

(** *** Events and transitions *)

Inductive Event : Type :=
| SetValue (v : string)              (* re-render with a new [value] prop *)
| SetTagType (t : option TagType)    (* re-render with a new [tagType] prop *)
| Input (v : string)                 (* the user edits the input to [v] *)
| KeyDown (k : Key)
| Click (i : nat)                    (* click on the i-th suggestion button *)
| MouseDownOutside
| Elapse (dt : nat)                  (* [dt] ms pass *)
| Settle (id : nat) (response : Settled TagService.Envelope).
                                     (* api.get of lookup [id] settles *)

Definition mount (p : Props) : State * list Output :=
  let s0 :=
    mkState (p_value p) (p_tagType p) (p_onSelect p)
      (p_value p) None [] false None false (-1) 0%nat ∅ 0%nat 0%nat in
  fetchSuggestions (suggestions_effect (useDebounce_effect (p_value p) s0)).

Definition step (s : State) (e : Event) : State * list Output :=
  match e with
  | SetValue v =>
      if String.eqb v (value s) then (s, [])
      else (useDebounce_effect v (with_value v s), [])
  | SetTagType t =>
      if decide (t = tagTypeProp s) then (s, [])
      else fetchSuggestions (with_tagType t s)
  | Input v => (s, [OnChange v])
  | KeyDown k => handleKeyDown k s
  | Click i =>
      if dropdown_rendered s then
        match suggestions s !! i with
        | Some tag => handleSelectTag tag s
        | None => (s, [])
        end
      else (s, [])
  | MouseDownOutside => (with_isOpen false s, [])
  | Elapse dt => elapse dt s
  | Settle id response =>
      match inflight s !! id with
      | Some params =>
          fetchSuggestions_resume
            (TagService.fetchTagAutocomplete (fun _ => response) params)
            (with_inflight (delete id (inflight s)) (nextId s) s)
      | None => (s, [])
      end
  end.

(** The caller of the documented usage, [onChange={setSearchTerm}]: every
    [onChange(v)] comes back as the new [value] prop. *)
Definition feed (out : list Output) (s : State) : State :=
  fold_left
    (fun s o => match o with OnChange v => fst (step s (SetValue v)) | _ => s end)
    out s.

Definition controlled_step (s : State) (e : Event) : State * list Output :=
  let '(s', out) := step s e in (feed out s', out).

Fixpoint run (s : State) (es : list Event) : State * list Output :=
  match es with
  | [] => (s, [])
  | e :: es =>
      let '(s1, out1) := controlled_step s e in
      let '(s2, out2) := run s1 es in
      (s2, out1 ++ out2)
  end.

Inductive reachable : State -> Prop :=
| reachable_mount (p : Props) : reachable (fst (mount p))
| reachable_step (s : State) (e : Event) :
    reachable s -> reachable (fst (step s e)).

End Autocomplete.

(* ================================================================= *)
(** ** TagAutocomplete: formatUsageCount

    A usage count is an integer-valued number.  [count / 1000] is the
    IEEE 754 binary64 division, taken from the Standard Library's
    specification of floating-point arithmetic, and [toFixed(1)] follows
    ECMA-262 (Number.prototype.toFixed) for magnitudes below 1e21. *)

Module Format.
Import Js.

Definition prec : Z := 53.
Definition emax : Z := 1024.

(** The binary64 number equal to (or, above 2^53, nearest to) an integer. *)
Definition number_of_Z (n : Z) : spec_float := binary_normalize prec emax n 0 false.

Definition number_div (x y : spec_float) : spec_float := SFdiv prec emax x y.

(** "Let n be an integer for which n / 10 - x is as close to zero as
    possible.  If there are two such n, pick the larger n", for x = m * 2^e. *)
Definition nearest_tenths (m : positive) (e : Z) : Z :=
  if 0 <=? e then 10 * Z.pos m * 2 ^ e
  else (20 * Z.pos m + 2 ^ (- e)) / 2 ^ (- e + 1).

(** The digits of n with a point before the last one; a single digit gets a
    leading zero. *)
Definition tenths_str (n : Z) : string :=
  toString (n / 10) +:+ "." +:+ toString (n mod 10).

Definition toFixed1 (x : spec_float) : string :=
  match x with
  | S754_nan => "NaN"
  | S754_infinity s => if s then "-Infinity" else "Infinity"
  | S754_zero _ => "0.0"
  | S754_finite s m e =>
      (if s then "-" else "") +:+ tenths_str (nearest_tenths m e)
  end.

Definition formatUsageCount (count : option Z) : string :=
  match count with
  | None => "0"
  | Some count =>
      if count >=? 1000 then
        toFixed1 (number_div (number_of_Z count) (number_of_Z 1000)) +:+ "k"
      else toString count
  end.

End Format.

(* ================================================================= *)
(** ** What the specification says, in its own words *)

Module Claimed.
Import Js Autocomplete.

(** "if lookup A is issued before lookup B but A's response arrives after
    B's has already updated the batch, A's response must be discarded on
    arrival".  Lookups are numbered in order of issue; B has been answered
    when it was issued and is awaited no more. *)
Definition stale_response_discarded : Prop :=
  forall (s : State) (a b : nat) (response : Settled TagService.Envelope),
    reachable s ->
    (a < b)%nat -> is_Some (inflight s !! a) ->
    (b < nextId s)%nat -> inflight s !! b = None ->
    suggestions (fst (step s (Settle a response))) = suggestions s.

(** "Cursor index is always either none or within [0, batchLength - 1]". *)
Definition cursor_in_bounds (s : State) : Prop :=
  selectedIndex s = -1
  \/ 0 <= selectedIndex s <= Z.of_nat (length (suggestions s)) - 1.

(** "no lookup fires until the query has been stable for the full debounce
    interval": a lookup issued at time [t] finds the value unchanged since
    [t - debounceDelay] at least; the component is mounted at time 0. *)
Definition lookups_debounced : Prop :=
  (forall (p : Props) (t id : nat) (q : TagAutocompleteParams),
     In (Lookup t id q) (snd (mount p)) -> (debounceDelay <= t)%nat)
  /\ (forall (s : State) (e : Event) (t id : nat) (q : TagAutocompleteParams),
        reachable s -> In (Lookup t id q) (snd (step s e)) ->
        (lastChange s + debounceDelay <= t)%nat).

(** "visible iff the batch is non-empty, or iff the batch is empty and the
    query is non-blank and a lookup is not currently pending". *)
Definition dropdown_visible (s : State) : bool :=
  (0 <? length (suggestions s))%nat
  || ((length (suggestions s) =? 0)%nat
      && truthy (trim (value s)) && negb (isLoading s)).

(** "After every commit ... a new lookup with the committed name as prefix is
    issued once the debounce interval elapses". *)
Definition commit_issues_lookup : Prop :=
  forall (s : State) (i : nat) (tag : TagAutocompleteResult),
    reachable s -> isOpen s = true -> suggestions s !! i = Some tag ->
    exists t id,
      In (Lookup t id (mkParams (name tag) (tagTypeProp s) (Some suggestionLimit)))
         (snd (run s [Click i; Elapse debounceDelay])).

End Claimed.

(* ================================================================= *)
(** ** The invariant of the controller *)

Module Invariant.
Import Js Autocomplete.

Record Inv (s : State) : Prop := mkInv {
  (* the cursor is at least -1 and, over a non-empty batch, below its length *)
  inv_cursor_lo : -1 <= selectedIndex s;
  inv_cursor_hi :
    suggestions s <> [] -> selectedIndex s < Z.of_nat (length (suggestions s));
  (* the dropdown is open over a non-empty batch only *)
  inv_open : isOpen s = true -> suggestions s <> [];
  (* the pending timeout captured the current value, when it last changed *)
  inv_timer :
    forall v due, timer s = Some (v, due) ->
      v = value s /\ due = (lastChange s + debounceDelay)%nat /\ (now s < due)%nat;
  (* with no timeout pending the value has settled *)
  inv_settled : timer s = None -> debouncedValue s = value s;
  inv_lastChange : (lastChange s <= now s)%nat;
  (* the ids of the awaited promises have been issued *)
  inv_ids : forall id, (nextId s <= id)%nat -> inflight s !! id = None
}.

(** Events that are no input of the user or of the caller: time passing,
    responses arriving, navigation and dismissal. *)
Definition no_input (e : Event) : bool :=
  match e with
  | SetValue _ | SetTagType _ | Input _ | Click _ | KeyDown Enter => false
  | _ => true
  end.

Definition is_lookup (o : Output) : bool :=
  match o with Lookup _ _ _ => true | _ => false end.

Definition is_callback (o : Output) : bool :=
  match o with OnChange _ | OnSelect _ => true | _ => false end.

End Invariant.

(* ================================================================= *)
(** ** Sample batches and states

    The batch of the component's tests, and states reached from a mount by
    the event sequences shown. *)

Module Samples.
Import Js Autocomplete.

Definition LOL : TagAutocompleteResult := mkResult "LOL" 1500.
Definition LostArk : TagAutocompleteResult := mkResult "Lost Ark" 800.
Definition respond (l : list TagAutocompleteResult) : Settled TagService.Envelope :=
  Fulfilled (TagService.mkApiResponse true (Some l) None).

Definition stale_state : State :=
  fst (run (fst (mount (mkProps "" None false)))
         [Input "lo"; Elapse 300; Input "lol"; Elapse 300; Settle 1 (respond [LOL])]).

Definition emptied_state : State :=
  fst (run (fst (mount (mkProps "lo" None false)))
         [Settle 0 (respond [LOL; LostArk]); KeyDown ArrowDown; KeyDown ArrowDown;
          Input "lox"; Elapse 300; Settle 1 (respond [])]).

Definition dismissed_state : State :=
  fst (run (fst (mount (mkProps "lo" None false)))
         [Settle 0 (respond [LOL; LostArk]); KeyDown Escape]).

Definition settled_LOL_state : State :=
  fst (run (fst (mount (mkProps "LOL" None false))) [Settle 0 (respond [LOL])]).

End Samples.

(* ================================================================= *)
(** ** Typing in bursts *)

Module Typing.
Import Js Autocomplete.

(** The user edits the input to each value in turn and pauses after it. *)
Fixpoint burst (keys : list (string * nat)) : list Event :=
  match keys with
  | [] => []
  | (v, dt) :: rest => Input v :: Elapse dt :: burst rest
  end.

(** Each edit changes the value that was displayed before it. *)
Fixpoint each_edit_changes (shown : string) (keys : list (string * nat)) : Prop :=
  match keys with
  | [] => True
  | (v, _) :: rest => v <> shown /\ each_edit_changes v rest
  end.

Definition last_value (shown : string) (keys : list (string * nat)) : string :=
  List.last (map fst keys) shown.

Definition presses (k : Key) (n : nat) : list Event := repeat (KeyDown k) n.

End Typing.

(* ================================================================= *)
(** ** The pages around the controller: requests and asynchronous handlers

    An async handler is a computation over the state of its component: it
    logs what it does to the outside (requests, navigation, console), may
    throw, and is given the outcome of each request it awaits.  The values a
    handler reads from its render are passed to it as the state of that
    render. *)

Module Effects.

Inductive Method : Type := GET | POST | PATCH | DELETE.

Inductive Body : Type :=
| NoBody
| UpdateTagsRequest (names : list string) (tagType : TagType) (* { names, tagType } *)
| CallbackBody (code : string) (guildId : option string)      (* { code, guildId } *)
| NameBody (name : string)                                     (* { name } *)
| EnabledBody (enabled : bool).                                (* { enabled } *)

Record Call : Type := mkCall { method : Method; url : string; body : Body }.

Inductive Effect : Type :=
| Request (c : Call)                       (* api.get / post / patch / delete *)
| Navigate (to : string) (replace : bool)  (* navigate(to, { replace }) *)
| Href (to : string)                       (* window.location.href = to *)
| ConsoleError (msg : string).             (* console.error(msg, err) *)

Definition is_request (e : Effect) : bool :=
  match e with Request _ => true | _ => false end.

End Effects.

Module Async.
Import Js Effects.

Definition fulfilled {R : Type} (r : Settled R) : bool :=
  match r with Fulfilled _ => true | Rejected _ => false end.

Section WithState.
Context {S : Type}.

Definition M (A : Type) : Type := S -> list Effect * S * option A.

Definition ret {A : Type} (a : A) : M A := fun s => ([], s, Some a).

Definition bind {A B : Type} (m : M A) (f : A -> M B) : M B :=
  fun s =>
    let '(e1, s1, r) := m s in
    match r with
    | Some a => let '(e2, s2, r2) := f a s1 in (e1 ++ e2, s2, r2)
    | None => (e1, s1, None)
    end.

Definition throw {A : Type} : M A := fun s => ([], s, None).

Definition modify (f : S -> S) : M unit := fun s => ([], f s, Some tt).

Definition emit (e : Effect) : M unit := fun s => ([e], s, Some tt).

(** [await api.method(...)], given how the request settles. *)
Definition await {R : Type} (c : Call) (r : Settled R) : M R :=
  fun s =>
    ([Request c], s,
     match r with Fulfilled a => Some a | Rejected _ => None end).

Definition try_catch {A : Type} (body handler : M A) : M A :=
  fun s =>
    let '(e1, s1, r) := body s in
    match r with
    | Some a => (e1, s1, Some a)
    | None => let '(e2, s2, r2) := handler s1 in (e1 ++ e2, s2, r2)
    end.

Definition finally {A : Type} (body : M A) (fin : M unit) : M A :=
  fun s =>
    let '(e1, s1, r) := body s in
    let '(e2, s2, r2) := fin s1 in
    (e1 ++ e2, s2, match r2 with Some _ => r | None => None end).

Definition when (b : bool) (m : M unit) : M unit := if b then m else ret tt.

Definition requests (l : list Effect) : list Call :=
  flat_map (fun e => match e with Request c => [c] | _ => [] end) l.

Definition effects {A : Type} (m : M A) (s : S) : list Effect := fst (fst (m s)).
Definition state_after {A : Type} (m : M A) (s : S) : S := snd (fst (m s)).
Definition result {A : Type} (m : M A) (s : S) : option A := snd (m s).

End WithState.

Notation "x <- m ;; k" := (bind m (fun x => k))
  (at level 99, m at level 98, right associativity).
Notation "m ;;; k" := (bind m (fun _ => k))
  (at level 99, right associativity).

End Async.

(* ================================================================= *)
(** ** src/types/auth.ts and src/types/tag.ts (member tags) *)

Module Auth.

Record User : Type := mkUser {
  uuid : string;
  discordId : string;
  nickname : string
}.

Record TokenResponse : Type := mkTokens {
  accessToken : string;
  refreshToken : string
}.

End Auth.

Module Member.

Record MemberTag : Type := mkMemberTag {
  memberUuid : string;
  tagName : string;
  tagType : TagType
}.

Record MemberTagsResponse : Type := mkMemberTags {
  customTags : list MemberTag;
  categoryTags : list MemberTag
}.

End Member.

(* ================================================================= *)
(** ** src/pages/TagsPage.tsx (tag and category subscriptions) *)

Module TagsPage.
Import Js Effects Async.

(** [l.includes(x)] on strings. *)
Definition includes (x : string) (l : list string) : bool :=
  existsb (String.eqb x) l.

Record State : Type := mkState {
  selectedTagType : TagType;
  searchValue : string;
  loading : bool;
  saving : bool;
  notificationEnabled : bool;
  notificationToggling : bool;
  showNotificationModal : bool;
  originalCustomTags : list string;
  originalCategoryTags : list string;
  customTags : list string;
  categoryTags : list string
}.

Definition initial : State :=
  mkState CUSTOM "" true false true false false [] [] [] [].

Definition setSelectedTagType (t : TagType) (s : State) : State :=
  mkState t (searchValue s) (loading s) (saving s) (notificationEnabled s)
    (notificationToggling s) (showNotificationModal s) (originalCustomTags s)
    (originalCategoryTags s) (customTags s) (categoryTags s).

Definition setSearchValue (v : string) (s : State) : State :=
  mkState (selectedTagType s) v (loading s) (saving s) (notificationEnabled s)
    (notificationToggling s) (showNotificationModal s) (originalCustomTags s)
    (originalCategoryTags s) (customTags s) (categoryTags s).

Definition setLoading (b : bool) (s : State) : State :=
  mkState (selectedTagType s) (searchValue s) b (saving s) (notificationEnabled s)
    (notificationToggling s) (showNotificationModal s) (originalCustomTags s)
    (originalCategoryTags s) (customTags s) (categoryTags s).

Definition setSaving (b : bool) (s : State) : State :=
  mkState (selectedTagType s) (searchValue s) (loading s) b (notificationEnabled s)
    (notificationToggling s) (showNotificationModal s) (originalCustomTags s)
    (originalCategoryTags s) (customTags s) (categoryTags s).

Definition setNotificationEnabled (b : bool) (s : State) : State :=
  mkState (selectedTagType s) (searchValue s) (loading s) (saving s) b
    (notificationToggling s) (showNotificationModal s) (originalCustomTags s)
    (originalCategoryTags s) (customTags s) (categoryTags s).

Definition setNotificationToggling (b : bool) (s : State) : State :=
  mkState (selectedTagType s) (searchValue s) (loading s) (saving s)
    (notificationEnabled s) b (showNotificationModal s) (originalCustomTags s)
    (originalCategoryTags s) (customTags s) (categoryTags s).

Definition setShowNotificationModal (b : bool) (s : State) : State :=
  mkState (selectedTagType s) (searchValue s) (loading s) (saving s)
    (notificationEnabled s) (notificationToggling s) b (originalCustomTags s)
    (originalCategoryTags s) (customTags s) (categoryTags s).

Definition setOriginalCustomTags (l : list string) (s : State) : State :=
  mkState (selectedTagType s) (searchValue s) (loading s) (saving s)
    (notificationEnabled s) (notificationToggling s) (showNotificationModal s) l
    (originalCategoryTags s) (customTags s) (categoryTags s).

Definition setOriginalCategoryTags (l : list string) (s : State) : State :=
  mkState (selectedTagType s) (searchValue s) (loading s) (saving s)
    (notificationEnabled s) (notificationToggling s) (showNotificationModal s)
    (originalCustomTags s) l (customTags s) (categoryTags s).

Definition setCustomTags (l : list string) (s : State) : State :=
  mkState (selectedTagType s) (searchValue s) (loading s) (saving s)
    (notificationEnabled s) (notificationToggling s) (showNotificationModal s)
    (originalCustomTags s) (originalCategoryTags s) l (categoryTags s).

Definition setCategoryTags (l : list string) (s : State) : State :=
  mkState (selectedTagType s) (searchValue s) (loading s) (saving s)
    (notificationEnabled s) (notificationToggling s) (showNotificationModal s)
    (originalCustomTags s) (originalCategoryTags s) (customTags s) l.

(** The list a tag type stands for. *)
Definition tagsOf (type : TagType) (s : State) : list string :=
  match type with CUSTOM => customTags s | CATEGORY => categoryTags s end.

Definition originalTagsOf (type : TagType) (s : State) : list string :=
  match type with
  | CUSTOM => originalCustomTags s
  | CATEGORY => originalCategoryTags s
  end.

(** [tags.length !== original.length ||
     tags.some((tag) => !original.includes(tag))], the test that
    [hasChanges] and [saveChanges] make of each of the two lists. *)
Definition tagsChanged (tags original : list string) : bool :=
  negb (length tags =? length original)%nat
  || existsb (fun tag => negb (includes tag original)) tags.

Definition hasChanges (s : State) : bool :=
  let customChanged := tagsChanged (customTags s) (originalCustomTags s) in
  let categoryChanged := tagsChanged (categoryTags s) (originalCategoryTags s) in
  customChanged || categoryChanged.

Definition handleTagSelect (tag : TagAutocompleteResult) (s : State) : State :=
  let tagName := name tag in
  let s' :=
    match selectedTagType s with
    | CUSTOM =>
        if negb (includes tagName (customTags s))
        then setCustomTags (customTags s ++ [tagName]) s else s
    | CATEGORY =>
        if negb (includes tagName (categoryTags s))
        then setCategoryTags (categoryTags s ++ [tagName]) s else s
    end in
  setSearchValue "" s'.

Definition removeTag (tagName : string) (type : TagType) (s : State) : State :=
  match type with
  | CUSTOM =>
      setCustomTags (List.filter (fun t => negb (String.eqb t tagName)) (customTags s)) s
  | CATEGORY =>
      setCategoryTags
        (List.filter (fun t => negb (String.eqb t tagName)) (categoryTags s)) s
  end.

Definition memberTagsUrl (u : Auth.User) : string :=
  "/api/v1/members/" +:+ Auth.uuid u +:+ "/tags".

(** [response.data.data] of the member's tags may be null. *)
Definition fetchTags (user : option Auth.User)
    (response : Settled (option Member.MemberTagsResponse)) : M unit :=
  match user with
  | None => ret tt
  | Some u =>
      finally
        (try_catch
           (data <- await (mkCall GET (memberTagsUrl u) NoBody) response ;;
            let custom :=
              map Member.tagName
                (match data with Some d => Member.customTags d | None => [] end) in
            let category :=
              map Member.tagName
                (match data with Some d => Member.categoryTags d | None => [] end) in
            modify (fun s =>
              setCategoryTags category
                (setCustomTags custom
                   (setOriginalCategoryTags category
                      (setOriginalCustomTags custom s)))))
           (emit (ConsoleError "Failed to fetch tags:")))
        (modify (setLoading false))
  end.

Definition notificationUrl (enabled : bool) : string :=
  "/api/v1/members/me/notification?enabled="
  +:+ (if enabled then "true" else "false").

Definition handleNotificationToggle (enabled : bool) (response : Settled unit)
  : M unit :=
  modify (setNotificationToggling true) ;;;
  finally
    (try_catch
       (await (mkCall PATCH (notificationUrl enabled) NoBody) response ;;;
        modify (setNotificationEnabled enabled))
       (emit (ConsoleError "Failed to update notification settings:") ;;;
        modify (setNotificationEnabled (negb enabled))))
    (modify (setNotificationToggling false)).

(** [saveChanges], called from the render whose state is [r]; the three
    responses are those of the requests it may await, in order. *)
Definition saveChanges (r : State) (user : option Auth.User)
    (enableNotification : bool)
    (notification custom category : Settled unit) : M unit :=
  match user with
  | None => ret tt
  | Some u =>
      modify (setSaving true) ;;;
      modify (setShowNotificationModal false) ;;;
      finally
        (try_catch
           (when enableNotification
              (await (mkCall PATCH (notificationUrl true) NoBody) notification ;;;
               modify (setNotificationEnabled true)) ;;;
            let customChanged := tagsChanged (customTags r) (originalCustomTags r) in
            let categoryChanged :=
              tagsChanged (categoryTags r) (originalCategoryTags r) in
            when customChanged
              (await (mkCall PATCH (memberTagsUrl u)
                        (UpdateTagsRequest (customTags r) CUSTOM)) custom) ;;;
            when categoryChanged
              (await (mkCall PATCH (memberTagsUrl u)
                        (UpdateTagsRequest (categoryTags r) CATEGORY)) category) ;;;
            modify (setOriginalCustomTags (customTags r)) ;;;
            modify (setOriginalCategoryTags (categoryTags r)))
           (emit (ConsoleError "Failed to save tags:")))
        (modify (setSaving false))
  end.

Definition handleSaveClick (r : State) (user : option Auth.User)
    (custom category : Settled unit) : M unit :=
  if negb (notificationEnabled r) then modify (setShowNotificationModal true)
  else saveChanges r user false (Fulfilled tt) custom category.

(** The page around its [TagAutocomplete]: the outputs of the controller
    reach [setSearchValue] and [handleTagSelect], and the page renders it
    again with its search value. *)
Definition on_outputs (out : list Autocomplete.Output) (s : State) : State :=
  fold_left
    (fun s o =>
       match o with
       | Autocomplete.OnChange v => setSearchValue v s
       | Autocomplete.OnSelect tag => handleTagSelect tag s
       | _ => s
       end)
    out s.

Definition autocomplete_props (s : State) : Autocomplete.Props :=
  Autocomplete.mkProps (searchValue s) (Some (selectedTagType s)) true.

Definition autocomplete_event (page : State) (child : Autocomplete.State)
    (e : Autocomplete.Event)
  : State * Autocomplete.State * list Autocomplete.Output :=
  let '(child1, out) := Autocomplete.step child e in
  let page1 := on_outputs out page in
  (page1,
   fst (Autocomplete.step child1 (Autocomplete.SetValue (searchValue page1))),
   out).

(** What happens to the controller inside the page: the user, the clock and
    the network act on it, and its props come from the page. *)
Fixpoint autocomplete_run (page : State) (child : Autocomplete.State)
    (es : list Autocomplete.Event)
  : State * Autocomplete.State * list Autocomplete.Output :=
  match es with
  | [] => (page, child, [])
  | e :: es =>
      let '(page1, child1, out1) := autocomplete_event page child e in
      let '(page2, child2, out2) := autocomplete_run page1 child1 es in
      (page2, child2, out1 ++ out2)
  end.

(** Events other than an edit of the input and a change of the props. *)
Definition no_typing (e : Autocomplete.Event) : bool :=
  match e with
  | Autocomplete.SetValue _ | Autocomplete.SetTagType _
  | Autocomplete.Input _ => false
  | _ => true
  end.

(** The controller of the page while its value is empty. *)
Record Quiet (page : State) (child : Autocomplete.State) : Prop := mkQuiet {
  quiet_inv : Invariant.Inv child;
  quiet_onSelect : Autocomplete.hasOnSelect child = true;
  quiet_value : Autocomplete.value child = "";
  quiet_search : searchValue page = ""
}.

End TagsPage.

(* ================================================================= *)
(** ** src/contexts/AuthContext.tsx *)

Module AuthContext.
Import Js Effects Async.

Record State : Type := mkState {
  user : option Auth.User;
  isLoading : bool;
  localStorage : gmap string string
}.

Definition initial (storage : gmap string string) : State :=
  mkState None true storage.

(** [isAuthenticated: !!user]. *)
Definition isAuthenticated (s : State) : bool :=
  match user s with Some _ => true | None => false end.

Definition setUser (u : option Auth.User) (s : State) : State :=
  mkState u (isLoading s) (localStorage s).

Definition setIsLoading (b : bool) (s : State) : State :=
  mkState (user s) b (localStorage s).

Definition getItem (key : string) (s : State) : option string :=
  localStorage s !! key.

Definition setItem (key value : string) (s : State) : State :=
  mkState (user s) (isLoading s) (<[key := value]> (localStorage s)).

Definition removeItem (key : string) (s : State) : State :=
  mkState (user s) (isLoading s) (delete key (localStorage s)).

(** [!token]: no item, or the empty string. *)
Definition has_token (s : State) : bool :=
  match getItem "accessToken" s with
  | Some token => truthy token
  | None => false
  end.

(** [response.data.data] of /api/v1/members/me is the user, or null. *)
Definition checkAuthStatus (response : Settled (option Auth.User)) : M unit :=
  fun s =>
    if negb (has_token s) then modify (setIsLoading false) s
    else
      finally
        (try_catch
           (data <- await (mkCall GET "/api/v1/members/me" NoBody) response ;;
            modify (setUser data))
           (modify (removeItem "accessToken") ;;;
            modify (removeItem "refreshToken")))
        (modify (setIsLoading false)) s.

Definition logout : M unit :=
  modify (removeItem "accessToken") ;;;
  modify (removeItem "refreshToken") ;;;
  modify (setUser None) ;;;
  emit (Href "/").

Definition refreshAuth (response : Settled (option Auth.User)) : M unit :=
  checkAuthStatus response.

End AuthContext.

(* ================================================================= *)
(** ** src/pages/AuthCallbackPage.tsx *)

Module AuthCallbackPage.
Import Js Effects Async.

Record State : Type := mkState {
  error : option string;
  isProcessing : bool;               (* the ref isProcessing.current *)
  auth : AuthContext.State           (* the provider above the page *)
}.

Definition initial (a : AuthContext.State) : State := mkState None false a.

Definition setError (e : option string) (s : State) : State :=
  mkState e (isProcessing s) (auth s).

Definition setIsProcessing (b : bool) (s : State) : State :=
  mkState (error s) b (auth s).

Definition setAuth (a : AuthContext.State) (s : State) : State :=
  mkState (error s) (isProcessing s) a.

(** A computation of the provider, run from the page. *)
Definition in_auth {A : Type} (m : M (S := AuthContext.State) A) : M A :=
  fun s => let '(e, a, r) := m (auth s) in (e, setAuth a s, r).

(** [response.data.data] of the callback holds the two tokens; destructuring
    a null throws. *)
Definition handleCallback (code : string) (guildId : option string)
    (callback : Settled (option Auth.TokenResponse))
    (me : Settled (option Auth.User)) : M unit :=
  try_catch
    (data <- await (mkCall POST "/v1/auth/discord/callback"
                      (CallbackBody code guildId)) callback ;;
     match data with
     | None => throw
     | Some tokens =>
         in_auth (modify (AuthContext.setItem "accessToken"
                            (Auth.accessToken tokens))) ;;;
         in_auth (modify (AuthContext.setItem "refreshToken"
                            (Auth.refreshToken tokens))) ;;;
         in_auth (AuthContext.refreshAuth me) ;;;
         emit (Navigate "/" true)
     end)
    (emit (ConsoleError "OAuth callback failed:") ;;;
     modify (setError (Some "Login failed. Please try again."))).

(** The effect on [searchParams]; [code] and [guildId] are what
    [searchParams.get] returns. *)
Definition callback_effect (code guildId : option string)
    (callback : Settled (option Auth.TokenResponse))
    (me : Settled (option Auth.User)) : M unit :=
  fun s =>
    match code with
    | Some c =>
        if negb (truthy c) then
          modify (setError (Some "Authorization code not found")) s
        else if isProcessing s then ret tt s
        else (modify (setIsProcessing true) ;;;
              handleCallback c guildId callback me) s
    | None => modify (setError (Some "Authorization code not found")) s
    end.

(** The effect run again and again, as on a double mount or a re-render. *)
Fixpoint callback_effects (n : nat) (code guildId : option string)
    (callback : Settled (option Auth.TokenResponse))
    (me : Settled (option Auth.User)) : M unit :=
  match n with
  | O => ret tt
  | S n =>
      callback_effect code guildId callback me ;;;
      callback_effects n code guildId callback me
  end.

End AuthCallbackPage.

(* ================================================================= *)
(** ** src/pages/TagsPage.tsx (the list of tags with a switch each) *)

Module TagList.
Import Js Effects Async.

Record Tag : Type := mkTag {
  id : Z;
  name : string;
  enabled : bool
}.

Record State : Type := mkState {
  tags : list Tag;
  newTag : string;
  loading : bool
}.

Definition setTags (l : list Tag) (s : State) : State :=
  mkState l (newTag s) (loading s).

Definition setNewTag (v : string) (s : State) : State :=
  mkState (tags s) v (loading s).

Definition setLoading (b : bool) (s : State) : State :=
  mkState (tags s) (newTag s) b.


Definition fetchTags (response : Settled (option (list Tag))) : M unit :=
  finally
    (try_catch
       (data <- await (mkCall GET "/api/v1/tags" NoBody) response ;;
        modify (setTags (match data with Some l => l | None => [] end)))
       (emit (ConsoleError "Failed to fetch tags:")))
    (modify (setLoading false)).

(** The handlers read [tags] and [newTag] from the render [r] they were
    created in. *)
Definition addTag (r : State) (response : Settled Tag) : M unit :=
  if negb (truthy (trim (newTag r))) then ret tt
  else
    try_catch
      (data <- await (mkCall POST "/api/v1/tags" (NameBody (trim (newTag r))))
                 response ;;
       modify (setTags (tags r ++ [data])) ;;;
       modify (setNewTag ""))
      (emit (ConsoleError "Failed to add tag:")).



End TagList.

(* ================================================================= *)
(** ** Strings *)

Section StringFacts.
Import Js.

Lemma all_ws_rev_app (s acc : string) :
  all_ws (String.rev_app s acc) = all_ws s && all_ws acc.
Proof.
  revert acc. induction s as [|c s IH]; intros acc; simpl; [reflexivity|].
  rewrite IH. simpl. destruct (is_ws c), (all_ws s); reflexivity.
Qed.

Lemma all_ws_rev (s : string) : all_ws (String.rev s) = all_ws s.
Proof.
  unfold String.rev. rewrite all_ws_rev_app. simpl. apply andb_true_r.
Qed.

Lemma truthy_rev_app (s acc : string) :
  truthy (String.rev_app s acc) = truthy s || truthy acc.
Proof.
  revert acc. induction s as [|c s IH]; intros acc; simpl; [reflexivity|].
  rewrite IH. simpl. apply orb_true_r.
Qed.

Lemma truthy_rev (s : string) : truthy (String.rev s) = truthy s.
Proof. unfold String.rev. rewrite truthy_rev_app. simpl. apply orb_false_r. Qed.

Lemma truthy_trimStart (s : string) : truthy (trimStart s) = negb (all_ws s).
Proof.
  induction s as [|c s IH]; simpl; [reflexivity|].
  destruct (is_ws c); simpl; [exact IH | reflexivity].
Qed.

Lemma all_ws_trimStart (s : string) : all_ws (trimStart s) = all_ws s.
Proof.
  induction s as [|c s IH]; simpl; [reflexivity|].
  destruct (is_ws c) eqn:E; simpl; [exact IH | rewrite E; reflexivity].
Qed.

(** [!s.trim()] holds exactly of the strings made of white space only. *)
Lemma truthy_trim (s : string) : truthy (trim s) = negb (all_ws s).
Proof.
  unfold trim, trimEnd.
  rewrite truthy_rev, truthy_trimStart, all_ws_rev, all_ws_trimStart.
  reflexivity.
Qed.

Lemma trim_blank (s : string) : trim s = "" <-> all_ws s = true.
Proof.
  pose proof (truthy_trim s) as H. split; intros E.
  - rewrite E in H. simpl in H. destruct (all_ws s); [reflexivity | discriminate].
  - rewrite E in H. simpl in H. destruct (trim s); [reflexivity | discriminate].
Qed.

End StringFacts.

(* ================================================================= *)
(** ** Reachable states satisfy the invariant *)

Ltac unfold_step :=
  unfold Autocomplete.step, Autocomplete.elapse, Autocomplete.useDebounce_timeout,
    Autocomplete.fetchSuggestions, Autocomplete.fetchSuggestions_resume,
    Autocomplete.handleKeyDown, Autocomplete.handleSelectTag,
    Autocomplete.setSuggestions, Autocomplete.suggestions_effect,
    Autocomplete.useDebounce_effect,
    Autocomplete.dropdown_rendered,
    TagService.fetchTagAutocomplete, TagService.suggestions_result in *.

Section InvariantFacts.
Import Js Autocomplete Invariant.

Lemma Inv_mount p : Inv (fst (mount p)).
Proof.
  unfold mount, fetchSuggestions, setSuggestions, suggestions_effect, useDebounce_effect.
  simpl. destruct (truthy (trim (p_value p))); simpl;
  constructor; simpl; intros; try lia; try congruence.
  - inversion H; subst. unfold debounceDelay. repeat split; lia.
  - apply lookup_insert_None. split; [apply lookup_empty | lia].
  - inversion H; subst. unfold debounceDelay. repeat split; lia.
  - apply lookup_empty.
Qed.

Lemma Inv_step s e : Inv s -> Inv (fst (step s e)).
Proof.
  intros [Hlo Hhi Hop Htm Hst Hlc Hid].
  destruct e; unfold_step.
  - (* SetValue *)
    destruct (String.eqb_spec v (value s)); simpl; [constructor; assumption|].
    constructor; simpl; intros; try auto; try lia; try congruence.
    inversion H; subst. repeat split; unfold debounceDelay; lia.
  - destruct (decide (t = tagTypeProp s)); simpl; [constructor; assumption|].
    destruct (truthy (trim (debouncedValue s))); simpl;
      constructor; simpl; intros; try auto; try lia; try congruence.
    apply lookup_insert_None. split; [apply Hid|]; lia.
  - simpl. constructor; assumption.
  - (* KeyDown *)
    destruct (negb (isOpen s) || (Z.of_nat (length (suggestions s)) =? 0)) eqn:G;
      simpl; [constructor; assumption|].
    apply orb_false_elim in G as [_ G]. apply Z.eqb_neq in G.
    assert (Hne : suggestions s <> []) by (intros E; rewrite E in G; simpl in G; lia).
    pose proof (Hhi Hne) as Hhi'.
    destruct k; simpl.
    + constructor; simpl; intros; try auto; case_match; lia.
    + constructor; simpl; intros; try auto; case_match; lia.
    + repeat case_match; simpl; constructor; simpl; intros; try auto; try lia; try congruence.
    + constructor; simpl; intros; try auto; try lia; try congruence.
    + constructor; assumption.
  - (* Click *)
    repeat case_match; simpl; constructor; simpl; intros; try auto; try lia; try congruence.
  - simpl. constructor; simpl; intros; try auto; try lia; try congruence.
  - (* Elapse *)
    destruct (timer s) as [[v due]|] eqn:T.
    + destruct (Htm v due eq_refl) as (-> & -> & Hnow).
      destruct (_ <=? _)%nat eqn:L; simpl.
      * destruct (String.eqb_spec (value s) (debouncedValue s)); simpl.
        -- constructor; simpl; intros; try auto; try lia; try congruence.
        -- destruct (truthy (trim (value s))); simpl;
             constructor; simpl; intros; try auto; try lia; try congruence.
           apply lookup_insert_None. split; [apply Hid|]; lia.
      * apply Nat.leb_gt in L.
        constructor; simpl; intros; try auto; try lia; try congruence.
        rewrite T in H. inversion H; subst. repeat split; lia.
    + simpl. constructor; simpl; intros; try auto; try lia; try congruence.
  - (* Settle *)
    destruct (inflight s !! id) eqn:F; simpl; [|constructor; assumption].
    assert (Hdel : forall id', (nextId s <= id')%nat -> delete id (inflight s) !! id' = None).
    { intros id' Hle. apply lookup_delete_None. right. auto. }
    destruct response as [env|e]; simpl.
    + destruct (match TagService.data env with Some l => l | None => [] end)
        as [|x l]; simpl;
        constructor; simpl; intros; try auto; try lia; try congruence.
    + constructor; simpl; intros; try auto; try lia; try congruence.
Qed.

Lemma reachable_Inv s : reachable s -> Inv s.
Proof.
  induction 1 as [p | s e _ IH]; [apply Inv_mount | apply Inv_step, IH].
Qed.

End InvariantFacts.

(* ================================================================= *)
(** ** Runs stay among the reachable states *)

Section ReachFacts.
Import Js Autocomplete Invariant.

Lemma reachable_feed out : forall s, reachable s -> reachable (feed out s).
Proof.
  unfold feed. induction out as [|o out IH]; intros s H; simpl; [exact H|].
  apply IH. destruct o; try exact H. exact (reachable_step s (SetValue v) H).
Qed.

Lemma reachable_controlled_step s e :
  reachable s -> reachable (fst (controlled_step s e)).
Proof.
  intros H. unfold controlled_step.
  pose proof (reachable_step s e H) as H1.
  destruct (step s e) as [s' out]. simpl in *. apply reachable_feed, H1.
Qed.

Lemma reachable_run es : forall s, reachable s -> reachable (fst (run s es)).
Proof.
  induction es as [|e es IH]; intros s H; simpl; [exact H|].
  pose proof (reachable_controlled_step s e H) as H1.
  destruct (controlled_step s e) as [s1 out1]. simpl in H1.
  specialize (IH s1 H1). destruct (run s1 es) as [s2 out2]. exact IH.
Qed.

End ReachFacts.

Section Claims.
Import Js Autocomplete Invariant Samples.

(** C9.  When [api.get] resolves, [fetchTagAutocomplete] resolves with a
    list: the envelope's [data], or the empty list when [data] is null.  The
    lookup of the controller that awaited it then shows exactly that list as
    its batch. *)
Theorem fetchTagAutocomplete_returns_list
    (api_get : TagService.Request -> Settled TagService.Envelope)
    (params : TagAutocompleteParams) (env : TagService.Envelope) :
  api_get (TagService.suggestions_request params) = Fulfilled env ->
  TagService.fetchTagAutocomplete api_get params
    = Fulfilled (default [] (TagService.data env))
  /\ (TagService.data env = None ->
      TagService.fetchTagAutocomplete api_get params = Fulfilled [])
  /\ (forall s id,
        inflight s !! id = Some params ->
        suggestions (fst (step s (Settle id (api_get (TagService.suggestions_request params)))))
          = default [] (TagService.data env)).
Proof.
  intros H. unfold TagService.fetchTagAutocomplete. rewrite H. simpl.
  split; [destruct (TagService.data env); reflexivity|].
  split; [intros ->; reflexivity|].
  intros s id F. unfold step. rewrite F.
  unfold TagService.fetchTagAutocomplete. simpl.
  unfold fetchSuggestions_resume, setSuggestions, suggestions_effect. simpl.
  destruct (TagService.data env) as [l|]; simpl; [|reflexivity].
  destruct (0 <? length l)%nat; reflexivity.
Qed.

Lemma fetchTagAutocomplete_returns_list_witness :
  let api_get := fun _ : TagService.Request =>
    Fulfilled (TagService.mkApiResponse (T := list TagAutocompleteResult)
                 true None None) in
  let params := mkParams "lol" None (Some 10) in
  api_get (TagService.suggestions_request params)
    = Fulfilled (TagService.mkApiResponse true None None)
  /\ TagService.fetchTagAutocomplete api_get params = Fulfilled [].
Proof.
  intros api_get params.
  assert (H : api_get (TagService.suggestions_request params)
              = Fulfilled (TagService.mkApiResponse true None None))
    by reflexivity.
  split; [exact H|].
  exact (proj1 (fetchTagAutocomplete_returns_list api_get params _ H)).
Defined.

Lemma commit_step (s : State) (i : nat) (tag : TagAutocompleteResult) (e : Event) :
  isOpen s = true ->
  suggestions s !! i = Some tag ->
  (e = KeyDown Enter /\ selectedIndex s = Z.of_nat i) \/ e = Click i ->
  step s e = handleSelectTag tag s.
Proof.
  intros Hopen Hi He.
  assert (Hlen : (i < length (suggestions s))%nat)
    by (apply lookup_lt_is_Some; eauto).
  destruct He as [[-> Hsel] | ->]; unfold step.
  - unfold handleKeyDown. rewrite Hopen, Hsel, Nat2Z.id, Hi. simpl.
    destruct (Z.eqb_spec (Z.of_nat (length (suggestions s))) 0); [lia|].
    destruct (Z.geb_spec (Z.of_nat i) 0); [|lia].
    destruct (Z.ltb_spec (Z.of_nat i) (Z.of_nat (length (suggestions s)))); [|lia].
    reflexivity.
  - unfold dropdown_rendered. rewrite Hopen, Hi.
    destruct (Nat.ltb_spec 0 (length (suggestions s))); [reflexivity | lia].
Qed.

Lemma value_feed_commit tag s :
  value (feed (OnChange (name tag) :: (if hasOnSelect s then [OnSelect tag] else []))
           (with_isOpen false s)) = name tag.
Proof.
  unfold feed. simpl.
  destruct (String.eqb_spec (name tag) (value s)) as [E|E]; simpl;
    destruct (hasOnSelect s); simpl; congruence.
Qed.

(** C4.  Enter with the cursor at "none" (-1) changes nothing and calls
    nothing.  With the dropdown open, Enter on the suggestion under the
    cursor, or a click on any suggestion, calls [onChange] with the
    suggestion's name and then, when supplied, [onSelect] with the whole
    suggestion (name and usage count); it closes the dropdown, and a caller
    that stores what [onChange] gives it shows the name as the value. *)
Theorem commit_contract (s : State) :
  (selectedIndex s = -1 -> step s (KeyDown Enter) = (s, []))
  /\ (forall (i : nat) (tag : TagAutocompleteResult) (e : Event),
        isOpen s = true ->
        suggestions s !! i = Some tag ->
        (e = KeyDown Enter /\ selectedIndex s = Z.of_nat i) \/ e = Click i ->
        snd (step s e)
          = OnChange (name tag) :: (if hasOnSelect s then [OnSelect tag] else [])
        /\ isOpen (fst (step s e)) = false
        /\ dropdown_rendered (fst (step s e)) = false
        /\ value (fst (controlled_step s e)) = name tag).
Proof.
  split.
  - intros Hsel. unfold step, handleKeyDown. rewrite Hsel. simpl.
    destruct (negb (isOpen s) || _); reflexivity.
  - intros i tag e Hopen Hi He.
    pose proof (commit_step s i tag e Hopen Hi He) as Hstep.
    unfold controlled_step. rewrite Hstep. unfold handleSelectTag. simpl.
    repeat split. apply value_feed_commit.
Qed.

Lemma commit_contract_witness :
  let s := fst (run (fst (mount (mkProps "lo" None true)))
                 [Settle 0 (respond [LOL; LostArk]);
                  KeyDown ArrowDown; KeyDown ArrowDown]) in
  isOpen s = true
  /\ suggestions s !! 1%nat = Some LostArk
  /\ selectedIndex s = 1
  /\ snd (step s (KeyDown Enter)) = [OnChange "Lost Ark"; OnSelect LostArk]
  /\ value (fst (controlled_step s (KeyDown Enter))) = "Lost Ark".
Proof.
  intros s.
  assert (O : isOpen s = true) by reflexivity.
  assert (L : suggestions s !! 1%nat = Some LostArk) by reflexivity.
  assert (C : selectedIndex s = Z.of_nat 1) by reflexivity.
  split; [exact O|]. split; [exact L|]. split; [exact C|].
  destruct (proj2 (commit_contract s) 1%nat LostArk (KeyDown Enter) O L
              (or_introl (conj eq_refl C))) as (E1 & _ & _ & E2).
  split; [exact E1 | exact E2].
Defined.

(** C1 (amended).  There is no staleness check: when the response of any
    awaited lookup arrives with a result, whatever was issued or answered
    since, the batch becomes that response's list, the loading flag is
    cleared and the lookup is awaited no more: a late response of an earlier
    lookup is applied like any other. *)
Theorem response_applied_on_arrival
    (s : State) (id : nat) (p : TagAutocompleteParams) (env : TagService.Envelope) :
  inflight s !! id = Some p ->
  let s' := fst (step s (Settle id (Fulfilled env))) in
  suggestions s' = default [] (TagService.data env)
  /\ isLoading s' = false
  /\ inflight s' = delete id (inflight s).
Proof.
  intros F. unfold step. rewrite F. unfold_step. simpl.
  destruct (TagService.data env) as [l|]; simpl;
    [destruct (0 <? length l)%nat|]; simpl; auto.
Qed.

(** Lookup 0, for lo, is issued before lookup 1, for lol, and answered after
    it: its batch replaces the one of lol. *)
Lemma stale_response_overwrites :
  inflight stale_state !! 0%nat = Some (mkParams "lo" None (Some 10))
  /\ inflight stale_state !! 1%nat = None
  /\ nextId stale_state = 2%nat
  /\ suggestions stale_state = [LOL]
  /\ suggestions (fst (step stale_state (Settle 0 (respond [LostArk])))) = [LostArk]
  /\ ~ Claimed.stale_response_discarded.
Proof.
  repeat split; try (vm_compute; reflexivity).
  intros H.
  specialize (H stale_state 0%nat 1%nat (respond [LostArk])).
  assert (R : reachable stale_state) by (apply reachable_run, reachable_mount).
  specialize (H R).
  assert (E : suggestions (fst (step stale_state (Settle 0 (respond [LostArk])))) = [LostArk])
    by (vm_compute; reflexivity).
  assert (E' : suggestions stale_state = [LOL]) by (vm_compute; reflexivity).
  rewrite E, E' in H.
  enough ([LostArk] = [LOL]) by discriminate.
  apply H; try lia.
  - exists (mkParams "lo" None (Some 10)). vm_compute. reflexivity.
  - vm_compute. lia.
  - vm_compute. reflexivity.
Qed.

Lemma response_applied_on_arrival_witness :
  inflight stale_state !! 0%nat = Some (mkParams "lo" None (Some 10))
  /\ suggestions (fst (step stale_state (Settle 0 (respond [LostArk])))) = [LostArk].
Proof.
  assert (F : inflight stale_state !! 0%nat = Some (mkParams "lo" None (Some 10)))
    by (vm_compute; reflexivity).
  split; [exact F|].
  exact (proj1 (response_applied_on_arrival stale_state 0
                  (mkParams "lo" None (Some 10))
                  (TagService.mkApiResponse true (Some [LostArk]) None) F)).
Defined.


(** Down, Down over two suggestions, then an empty batch: the cursor is
    still 1. *)
Lemma cursor_survives_empty_batch :
  suggestions emptied_state = [] /\ selectedIndex emptied_state = 1
  /\ ~ (forall s, reachable s -> Claimed.cursor_in_bounds s).
Proof.
  split; [vm_compute; reflexivity|]. split; [vm_compute; reflexivity|].
  intros H.
  assert (R : reachable emptied_state) by (apply reachable_run, reachable_mount).
  destruct (H emptied_state R) as [E | E]; vm_compute in E.
  - discriminate.
  - destruct E as [_ E]. apply E. reflexivity.
Qed.

(** C2 (amended).  In every reachable state the cursor is at least -1 and,
    while the batch is non-empty, it is "none" (-1) or an index in
    [0, batchLength - 1]; it is reset to "none" whenever a non-empty batch
    arrives.  While the dropdown is open, Down moves it to
    min (cursor + 1, last index), a no-op at the last index, and Up to
    max (cursor - 1, -1), "none" from index 0: it never wraps. *)
Theorem cursor_bounds (s : State) :
  reachable s ->
  let len := Z.of_nat (length (suggestions s)) in
  -1 <= selectedIndex s
  /\ (suggestions s <> [] -> Claimed.cursor_in_bounds s)
  /\ (forall id p env,
        inflight s !! id = Some p -> default [] (TagService.data env) <> [] ->
        selectedIndex (fst (step s (Settle id (Fulfilled env)))) = -1)
  /\ (isOpen s = true ->
        selectedIndex (fst (step s (KeyDown ArrowDown)))
          = Z.min (selectedIndex s + 1) (len - 1)
        /\ selectedIndex (fst (step s (KeyDown ArrowUp)))
          = Z.max (selectedIndex s - 1) (-1)
        /\ (selectedIndex s = len - 1 ->
            step s (KeyDown ArrowDown) = (s, []))
        /\ (selectedIndex s = 0 ->
            selectedIndex (fst (step s (KeyDown ArrowUp))) = -1)).
Proof.
  intros R len. destruct (reachable_Inv s R) as [Hlo Hhi Hop _ _ _ _].
  split; [exact Hlo|]. split; [|split].
  - intros Hne. specialize (Hhi Hne). unfold Claimed.cursor_in_bounds. lia.
  - intros id p env F Hne. unfold step. rewrite F. unfold_step. simpl.
    destruct (TagService.data env) as [l|]; simpl in *; [|congruence].
    destruct l; [congruence|]. reflexivity.
  - intros Hopen. pose proof (Hop Hopen) as Hne. specialize (Hhi Hne).
    assert (Hlen : 0 < len).
    { subst len. destruct (suggestions s); [congruence | simpl; lia]. }
    unfold step, handleKeyDown. rewrite Hopen. fold len. simpl.
    destruct (Z.eqb_spec len 0); [lia|]. simpl.
    repeat split.
    + destruct (Z.ltb_spec (selectedIndex s) (len - 1)); lia.
    + destruct (selectedIndex s >? 0) eqn:G; lia.
    + intros E. destruct (Z.ltb_spec (selectedIndex s) (len - 1)); [lia|].
      destruct s; reflexivity.
    + intros E. rewrite E. reflexivity.
Qed.

Lemma cursor_bounds_witness :
  let s := fst (step (fst (mount (mkProps "lo" None false)))
                  (Settle 0 (respond [LOL; LostArk]))) in
  reachable s /\ isOpen s = true
  /\ selectedIndex (fst (step s (KeyDown ArrowDown))) = 0.
Proof.
  intros s.
  assert (R : reachable s) by (apply reachable_step, reachable_mount).
  split; [exact R|]. split; [reflexivity|].
  destruct (cursor_bounds s R) as (_ & _ & _ & K).
  destruct (K eq_refl) as (D & _). rewrite D. reflexivity.
Defined.

(** Which events issue a lookup, and with what. *)
Lemma lookup_cause (s : State) (e : Event) (t id : nat) (q : TagAutocompleteParams) :
  In (Lookup t id q) (snd (step s e)) ->
  (exists tt, e = SetTagType tt /\ tt <> tagTypeProp s /\ t = now s
              /\ q = mkParams (debouncedValue s) tt (Some suggestionLimit))
  \/ (exists dt v, e = Elapse dt /\ timer s = Some (v, t) /\ (t <= now s + dt)%nat
                   /\ v <> debouncedValue s
                   /\ q = mkParams v (tagTypeProp s) (Some suggestionLimit)).
Proof.
  destruct e; unfold_step.
  - destruct (String.eqb v (value s)); simpl; tauto.
  - destruct (decide (t0 = tagTypeProp s)); simpl; [tauto|].
    destruct (truthy (trim (debouncedValue s))); simpl; [|tauto].
    intros [HIn|[]]. inversion HIn; subst. left. exists t0. auto.
  - simpl. intros [HIn|[]]. discriminate.
  - repeat case_match; simpl; intros HIn;
      repeat (destruct HIn as [HIn|HIn]; try discriminate); tauto.
  - repeat case_match; simpl; intros HIn;
      repeat (destruct HIn as [HIn|HIn]; try discriminate); tauto.
  - simpl. tauto.
  - destruct (timer s) as [[v due]|] eqn:T; simpl; [|tauto].
    destruct (Nat.leb_spec due (now s + dt)); simpl; [|tauto].
    destruct (String.eqb_spec v (debouncedValue s)); simpl; [tauto|].
    destruct (truthy (trim v)); simpl; [|tauto].
    intros [HIn|[]]. inversion HIn; subst. right. exists dt, v. auto.
  - destruct (inflight s !! id0); simpl; [|tauto].
    destruct response; simpl; intros HIn;
      repeat (destruct HIn as [HIn|HIn]; try discriminate); tauto.
Qed.

(** A component mounted with lol looks it up at time 0; a change of the
    filter 100 ms after lol was typed over the settled lo looks up lo at
    once. *)
Lemma lookup_without_debounce :
  snd (mount (mkProps "lol" None false))
    = [Lookup 0 0 (mkParams "lol" None (Some 10))]
  /\ snd (step (fst (run (fst (mount (mkProps "" None false)))
                       [Input "lo"; Elapse 300; Input "lol"; Elapse 100]))
              (SetTagType (Some CATEGORY)))
    = [Lookup 400 1 (mkParams "lo" (Some CATEGORY) (Some 10))]
  /\ ~ Claimed.lookups_debounced.
Proof.
  split; [vm_compute; reflexivity|]. split; [vm_compute; reflexivity|].
  intros [H _].
  specialize (H (mkProps "lol" None false) 0%nat 0%nat (mkParams "lol" None (Some 10))).
  unfold debounceDelay in H. simpl in H.
  assert (300 <= 0)%nat by (apply H; left; reflexivity). lia.
Qed.

(** C3 (amended).  The mount issues a lookup at once, at time 0, for the
    initial value.  After the mount, a transition issues a lookup only in two
    cases.  Either the category filter changed: the lookup is issued at once,
    for the settled value.  Or the debounce timeout fired: the lookup is for
    the current value and is issued [debounceDelay] after the value last
    changed, the value having stayed unchanged in between.  A change of the
    value replaces the pending timeout by one due a full interval later and
    issues nothing; no other event touches the value or the time of its
    last change. *)
Theorem lookups_after_settling :
  (forall p t id q,
     In (Lookup t id q) (snd (mount p)) ->
     t = 0%nat /\ q = mkParams (p_value p) (p_tagType p) (Some suggestionLimit))
  /\ (forall s e,
        reachable s ->
        (forall t id q,
           In (Lookup t id q) (snd (step s e)) ->
           (exists tt, e = SetTagType tt /\ tt <> tagTypeProp s /\ t = now s
                       /\ prefix q = debouncedValue s)
           \/ (exists dt, e = Elapse dt /\ prefix q = value s
                          /\ t = (lastChange s + debounceDelay)%nat
                          /\ (now s < t <= now s + dt)%nat))
        /\ (forall v, e = SetValue v -> v <> value s ->
              timer (fst (step s e)) = Some (v, (now s + debounceDelay)%nat)
              /\ lastChange (fst (step s e)) = now s
              /\ snd (step s e) = [])
        /\ ((forall v, e = SetValue v -> v = value s) ->
              value (fst (step s e)) = value s
              /\ lastChange (fst (step s e)) = lastChange s)).
Proof.
  split.
  { intros p t id q. unfold mount, fetchSuggestions. simpl.
    destruct (truthy (trim (p_value p))); simpl; [|tauto].
    intros [H|[]]. inversion H; subst. auto. }
  intros s e R. destruct (reachable_Inv s R) as [_ _ _ Htm _ _ _].
  split; [|split].
  - intros t id q H.
    apply lookup_cause in H
      as [(tt & -> & Hne & -> & ->) | (dt & v & -> & T & Hle & Hne & ->)].
    + left. exists tt. auto.
    + right. exists dt. destruct (Htm v t T) as (-> & -> & Hnow). simpl. auto.
  - intros v -> Hne. unfold step.
    destruct (String.eqb_spec v (value s)); [congruence|]. simpl. auto.
  - intros Hsame. destruct e; unfold_step;
      try (repeat case_match; simpl; split; reflexivity).
    + destruct (String.eqb_spec v (value s)); simpl; [split; reflexivity|].
      exfalso. eauto.
    + destruct (timer s) as [[v due]|]; simpl; [|split; reflexivity].
      destruct (due <=? now s + dt)%nat; simpl; [|split; reflexivity].
      destruct (String.eqb v (debouncedValue s)); simpl; [split; reflexivity|].
      destruct (truthy (trim v)); simpl; split; reflexivity.
Qed.

Lemma lookups_after_settling_witness :
  let s := fst (run (fst (mount (mkProps "" None false))) [Input "lo"; Elapse 100]) in
  reachable s
  /\ snd (step s (Elapse 200)) = [Lookup 300 0 (mkParams "lo" None (Some 10))]
  /\ lastChange s = 0%nat.
Proof.
  intros s.
  assert (R : reachable s) by (apply reachable_run, reachable_mount).
  split; [exact R|]. split; [vm_compute; reflexivity|].
  destruct (proj2 lookups_after_settling s (Elapse 200) R) as (L & _).
  destruct (L 300%nat 0%nat (mkParams "lo" None (Some 10)))
    as [(tt & E & _) | (dt & _ & _ & E & _)].
  - vm_compute. left. reflexivity.
  - discriminate.
  - unfold debounceDelay in E. lia.
Defined.

Lemma fetchSuggestions_blank (s : State) :
  all_ws (debouncedValue s) = true ->
  fetchSuggestions s = (with_isOpen false (with_suggestions [] s), []).
Proof.
  intros B. unfold fetchSuggestions. rewrite truthy_trim, B. reflexivity.
Qed.

Lemma debouncedValue_fetchSuggestions (s : State) :
  debouncedValue (fst (fetchSuggestions s)) = debouncedValue s.
Proof.
  unfold fetchSuggestions. destruct (negb _); reflexivity.
Qed.

(** C5.  A blank (white space only) settled query short-circuits: at the
    mount, in [fetchSuggestions], and in every transition after which the
    settled query is blank, the suggestion source is not called, and when the
    settled query or the filter changed the batch is empty. *)
Theorem blank_query_short_circuits :
  (forall p, all_ws (p_value p) = true ->
     suggestions (fst (mount p)) = [] /\ snd (mount p) = [])
  /\ (forall s,
        all_ws (debouncedValue s) = true ->
        suggestions (fst (fetchSuggestions s)) = []
        /\ snd (fetchSuggestions s) = []
        /\ inflight (fst (fetchSuggestions s)) = inflight s)
  /\ (forall s e,
        all_ws (debouncedValue (fst (step s e))) = true ->
        (forall o, In o (snd (step s e)) -> is_lookup o = false)
        /\ (debouncedValue (fst (step s e)) <> debouncedValue s
            \/ tagTypeProp (fst (step s e)) <> tagTypeProp s ->
            suggestions (fst (step s e)) = [])).
Proof.
  split; [|split].
  - intros p B. unfold mount. rewrite fetchSuggestions_blank by exact B. auto.
  - intros s B. rewrite fetchSuggestions_blank by exact B. auto.
  - intros s e B. split.
    + intros o Ho. destruct o as [| |t id q|]; try reflexivity. exfalso.
      pose proof Ho as Hc. apply lookup_cause in Hc
        as [(tt & -> & Hne & -> & ->) | (dt & v & -> & T & Hle & Hne & ->)].
      * revert B Ho. unfold step. destruct (decide _); [congruence|].
        rewrite debouncedValue_fetchSuggestions. intros B.
        rewrite fetchSuggestions_blank by exact B. simpl. tauto.
      * revert B Ho. unfold step, elapse. rewrite T.
        destruct (Nat.leb_spec t (now s + dt)); [|lia].
        unfold useDebounce_timeout. simpl.
        destruct (String.eqb_spec v (debouncedValue s)); [congruence|].
        destruct (fetchSuggestions _) as [s1 out] eqn:F. simpl.
        pose proof (debouncedValue_fetchSuggestions
                      (with_debouncedValue v (with_timer None (with_now t s)))) as D.
        rewrite F in D. simpl in D. rewrite D. intros B.
        rewrite fetchSuggestions_blank in F by exact B.
        inversion F; subst. simpl. tauto.
    + revert B. destruct e; unfold step.
      * destruct (String.eqb v (value s)); simpl; tauto.
      * destruct (decide _); simpl; [tauto|].
        unfold fetchSuggestions. simpl. rewrite truthy_trim.
        destruct (all_ws (debouncedValue s)) eqn:B'; simpl; [auto | congruence].
      * simpl; tauto.
      * unfold handleKeyDown, handleSelectTag.
        repeat case_match; simpl; tauto.
      * unfold handleSelectTag. repeat case_match; simpl; tauto.
      * simpl; tauto.
      * unfold elapse. destruct (timer s) as [[v due]|]; simpl; [|tauto].
        destruct (due <=? now s + dt)%nat; simpl; [|tauto].
        unfold useDebounce_timeout. simpl.
        destruct (String.eqb v (debouncedValue s)); simpl; [tauto|].
        unfold fetchSuggestions. simpl. rewrite truthy_trim.
        destruct (all_ws v) eqn:B'; simpl; [auto | congruence].
      * destruct (inflight s !! id); simpl; [|tauto].
        unfold_step. destruct response; simpl; repeat case_match; simpl; tauto.
Qed.

Lemma blank_query_short_circuits_witness :
  let s := fst (run (fst (mount (mkProps "lo" None false)))
                 [Settle 0 (respond [LOL; LostArk]); Input "  "]) in
  all_ws (debouncedValue (fst (step s (Elapse 300)))) = true
  /\ suggestions (fst (step s (Elapse 300))) = []
  /\ snd (step s (Elapse 300)) = [].
Proof.
  intros s.
  assert (B : all_ws (debouncedValue (fst (step s (Elapse 300)))) = true)
    by (vm_compute; reflexivity).
  split; [exact B|].
  destruct blank_query_short_circuits as (_ & _ & K).
  destruct (K s (Elapse 300) B) as (_ & E).
  split; [|vm_compute; reflexivity].
  apply E. left. vm_compute. discriminate.
Defined.

(** With no input, a step either leaves the settled value and an absent
    timeout as they are and issues nothing, or it is the timeout firing, for
    a value other than the settled one. *)
Lemma no_input_step (s : State) (e : Event) :
  no_input e = true ->
  feed (snd (step s e)) (fst (step s e)) = fst (step s e)
  /\ ((debouncedValue (fst (step s e)) = debouncedValue s
       /\ (timer s = None -> timer (fst (step s e)) = None)
       /\ forall o, In o (snd (step s e)) -> is_lookup o = false)
      \/ (timer (fst (step s e)) = None
          /\ forall t id q, In (Lookup t id q) (snd (step s e)) ->
                            prefix q <> debouncedValue s)).
Proof.
  intros N. destruct e; try discriminate; unfold step.
  - (* KeyDown *)
    destruct k; try discriminate; unfold handleKeyDown;
      destruct (negb (isOpen s) || _); simpl;
      (split; [reflexivity | left; repeat split; tauto]).
  - simpl. split; [reflexivity | left; repeat split; tauto].
  - (* Elapse *)
    unfold elapse. destruct (timer s) as [[v due]|] eqn:T; simpl;
      [|split; [reflexivity | left; repeat split; tauto]].
    destruct (due <=? now s + dt)%nat; simpl;
      [|split; [reflexivity | left; repeat split; [discriminate | tauto]]].
    unfold useDebounce_timeout. simpl.
    destruct (String.eqb_spec v (debouncedValue s)); simpl;
      [split; [reflexivity | left; repeat split; tauto]|].
    unfold fetchSuggestions. simpl.
    destruct (truthy (trim v)); simpl;
      (split; [reflexivity | right; split; [reflexivity|]]).
    + intros t id q [H|[]]. inversion H; subst. simpl. exact n.
    + tauto.
  - (* Settle *)
    destruct (inflight s !! id); simpl;
      [|split; [reflexivity | left; repeat split; tauto]].
    unfold_step. destruct response; simpl.
    + destruct (0 <? length _)%nat; simpl;
        (split; [reflexivity | left; repeat split; tauto]).
    + split; [reflexivity | left; repeat split; try tauto].
      intros o [<-|[]]. reflexivity.
Qed.

Lemma no_input_run_idle (es : list Event) :
  forall s, forallb no_input es = true -> timer s = None ->
    forall o, In o (snd (run s es)) -> is_lookup o = false.
Proof.
  induction es as [|e es IH]; intros s N T o Ho; simpl in *; [tauto|].
  apply andb_prop in N as [Ne Nes].
  destruct (no_input_step s e Ne) as (Hfeed & Hcase).
  unfold controlled_step in Ho.
  destruct (step s e) as [s1 out1] eqn:S1. simpl in *. rewrite Hfeed in Ho.
  destruct (run s1 es) as [s2 out2] eqn:R2. simpl in Ho.
  apply in_app_or in Ho as [Ho|Ho].
  - destruct Hcase as [(_ & _ & L) | (_ & L)]; [apply L, Ho|].
    destruct o as [| |t id q|]; try reflexivity. exfalso.
    assert (Hc : In (Lookup t id q) (snd (step s e))) by (rewrite S1; exact Ho).
    apply lookup_cause in Hc as [(tt & -> & _) | (dt & v & -> & T' & _)].
    + discriminate Ne.
    + congruence.
  - apply (IH s1 Nes); [|rewrite R2; exact Ho].
    destruct Hcase as [(_ & K & _) | (K & _)]; auto.
Qed.

Lemma no_input_run (es : list Event) :
  forall s, forallb no_input es = true ->
    forall t id q, In (Lookup t id q) (snd (run s es)) ->
                   prefix q <> debouncedValue s.
Proof.
  induction es as [|e es IH]; intros s N t id q Ho; simpl in *; [tauto|].
  apply andb_prop in N as [Ne Nes].
  destruct (no_input_step s e Ne) as (Hfeed & Hcase).
  unfold controlled_step in Ho.
  destruct (step s e) as [s1 out1] eqn:S1. simpl in *. rewrite Hfeed in Ho.
  destruct (run s1 es) as [s2 out2] eqn:R2. simpl in Ho.
  apply in_app_or in Ho as [Ho|Ho].
  - destruct Hcase as [(_ & _ & L) | (_ & L)].
    + apply L in Ho. discriminate.
    + eapply L, Ho.
  - destruct Hcase as [(D & _ & _) | (K & _)].
    + rewrite <- D. apply (IH s1 Nes t id). rewrite R2. exact Ho.
    + pose proof (no_input_run_idle es s1 Nes K (Lookup t id q)) as Hidle.
      rewrite R2 in Hidle. specialize (Hidle Ho). discriminate.
Qed.

(** C6.  When an awaited lookup fails, the batch is cleared, the error
    message is recorded ([err.message], or the default text), the loading
    flag is cleared, and nothing but [console.error] is called: no callback
    of the caller, no lookup.  The settled value, the pending timeout and
    the issued lookups are as before; and as long as there is no input,
    whatever time passes and whatever responses arrive, no lookup is issued
    for the settled query of the failure. *)
Theorem lookup_failure_handled
    (s : State) (id : nat) (p : TagAutocompleteParams) (e : Thrown) :
  inflight s !! id = Some p ->
  let s' := fst (step s (Settle id (Rejected e))) in
  suggestions s' = []
  /\ error s' = Some (error_message e)
  /\ isLoading s' = false
  /\ snd (step s (Settle id (Rejected e))) = [ConsoleError e]
  /\ debouncedValue s' = debouncedValue s
  /\ timer s' = timer s
  /\ nextId s' = nextId s
  /\ (forall es t id' q,
        forallb no_input es = true ->
        In (Lookup t id' q) (snd (run s' es)) ->
        prefix q <> debouncedValue s).
Proof.
  intros F s'. subst s'. unfold step. rewrite F. unfold_step. simpl.
  repeat split.
  intros es t id' q N Ho. apply no_input_run in Ho; [exact Ho | exact N].
Qed.

Lemma lookup_failure_handled_witness :
  let s := fst (mount (mkProps "lol" None false)) in
  let s' := fst (step s (Settle 0 (Rejected (ErrorObject "Network Error")))) in
  inflight s !! 0%nat = Some (mkParams "lol" None (Some 10))
  /\ suggestions s' = [] /\ error s' = Some "Network Error"
  /\ snd (run s' [Elapse 300; Elapse 5000]) = [].
Proof.
  intros s s'.
  assert (F : inflight s !! 0%nat = Some (mkParams "lol" None (Some 10)))
    by (vm_compute; reflexivity).
  split; [exact F|].
  destruct (lookup_failure_handled s 0 _ (ErrorObject "Network Error") F)
    as (E1 & E2 & _).
  split; [exact E1|]. split; [exact E2|]. vm_compute. reflexivity.
Defined.

(** After Escape the batch is as it was and nothing is rendered. *)
Lemma hidden_over_nonempty_batch :
  suggestions dismissed_state = [LOL; LostArk]
  /\ dropdown_rendered dismissed_state || empty_state_rendered dismissed_state = false
  /\ Claimed.dropdown_visible dismissed_state = true
  /\ ~ (forall s, reachable s ->
          dropdown_rendered s || empty_state_rendered s = Claimed.dropdown_visible s).
Proof.
  repeat split; try (vm_compute; reflexivity).
  intros H.
  assert (R : reachable dismissed_state) by (apply reachable_run, reachable_mount).
  specialize (H dismissed_state R). vm_compute in H. discriminate.
Qed.

(** C7 (amended).  In every reachable state the suggestion list is rendered
    if and only if the dropdown is open.  An arriving response opens it when
    the batch it leaves is non-empty and closes it when empty; Escape, a
    press outside and a commit close it over a batch that stays as it is;
    and nothing but an arriving batch opens it. *)
Theorem dropdown_rendered_when_open (s : State) :
  reachable s ->
  dropdown_rendered s = isOpen s
  /\ (forall id p response,
        inflight s !! id = Some p ->
        isOpen (fst (step s (Settle id response)))
          = (0 <? length (suggestions (fst (step s (Settle id response)))))%nat)
  /\ (forall e,
        e = KeyDown Escape \/ e = MouseDownOutside
        \/ (exists i tag, suggestions s !! i = Some tag /\ isOpen s = true
                          /\ (e = Click i
                              \/ (e = KeyDown Enter /\ selectedIndex s = Z.of_nat i))) ->
        isOpen (fst (step s e)) = false
        /\ suggestions (fst (step s e)) = suggestions s)
  /\ (forall e, isOpen (fst (step s e)) = true ->
        isOpen s = true \/ exists id env, e = Settle id (Fulfilled env)).
Proof.
  intros R. destruct (reachable_Inv s R) as [_ _ Hop _ _ _ _].
  split; [|split; [|split]].
  - unfold dropdown_rendered. destruct (isOpen s); [|reflexivity].
    destruct (suggestions s); [exfalso; apply Hop; reflexivity | reflexivity].
  - intros id p response F. unfold step. rewrite F. unfold_step.
    destruct response as [env|err]; simpl; [|reflexivity].
    destruct (TagService.data env) as [l|]; simpl; [|reflexivity].
    destruct l; reflexivity.
  - intros e [->|[->|(i & tag & Hi & Hopen & He)]].
    + unfold step, handleKeyDown. destruct (isOpen s) eqn:O; simpl; [|auto].
      destruct (Z.eqb_spec (Z.of_nat (length (suggestions s))) 0) as [E|E];
        simpl; [|auto].
      exfalso. apply Hop; [reflexivity|].
      destruct (suggestions s); [reflexivity | simpl in E; lia].
    + simpl. auto.
    + rewrite (commit_step s i tag e Hopen Hi) by tauto.
      unfold handleSelectTag. simpl. auto.
  - intros e. destruct (isOpen s) eqn:O; [auto|].
    destruct e; unfold step.
    + destruct (String.eqb v (value s)); simpl; rewrite O; discriminate.
    + destruct (decide _); simpl; [rewrite O; discriminate|].
      unfold fetchSuggestions. simpl.
      destruct (truthy (trim (debouncedValue s))); simpl;
        [rewrite O|]; discriminate.
    + simpl. rewrite O. discriminate.
    + unfold handleKeyDown. rewrite O. simpl. rewrite O. discriminate.
    + unfold dropdown_rendered. rewrite O. simpl. rewrite O. discriminate.
    + simpl. discriminate.
    + unfold elapse. destruct (timer s) as [[v due]|]; simpl;
        [|rewrite O; discriminate].
      destruct (due <=? now s + dt)%nat; simpl; [|rewrite O; discriminate].
      unfold useDebounce_timeout. simpl.
      destruct (String.eqb v (debouncedValue s)); simpl; [rewrite O; discriminate|].
      unfold fetchSuggestions. simpl.
      destruct (truthy (trim v)); simpl; [rewrite O|]; discriminate.
    + destruct (inflight s !! id); simpl; [|rewrite O; discriminate].
      destruct response as [env|err]; [eauto|].
      unfold_step. simpl. discriminate.
Qed.

Lemma dropdown_rendered_when_open_witness :
  reachable dismissed_state
  /\ dropdown_rendered dismissed_state = false.
Proof.
  assert (R : reachable dismissed_state) by (apply reachable_run, reachable_mount).
  split; [exact R|].
  rewrite (proj1 (dropdown_rendered_when_open dismissed_state R)).
  vm_compute. reflexivity.
Defined.

(** With LOL settled, the commit of the suggestion LOL is followed by no
    lookup; neither is the commit of a suggestion with a blank name. *)
Lemma commit_of_settled_name_is_silent :
  isOpen settled_LOL_state = true
  /\ suggestions settled_LOL_state !! 0%nat = Some LOL
  /\ debouncedValue settled_LOL_state = name LOL
  /\ snd (run settled_LOL_state [Click 0; Elapse debounceDelay]) = [OnChange "LOL"]
  /\ snd (run (fst (run (fst (mount (mkProps "lo" None false)))
                      [Settle 0 (respond [mkResult " " 3])]))
             [Click 0; Elapse debounceDelay]) = [OnChange " "]
  /\ ~ Claimed.commit_issues_lookup.
Proof.
  repeat split; try (vm_compute; reflexivity).
  intros H.
  assert (R : reachable settled_LOL_state) by (apply reachable_run, reachable_mount).
  destruct (H settled_LOL_state 0%nat LOL R) as (t & id & Hin);
    try (vm_compute; reflexivity).
  vm_compute in Hin. destruct Hin as [Hin|[]]. discriminate.
Qed.

Lemma elapse_fires (s : State) (v : string) (t dt : nat) :
  timer s = Some (v, t) -> (t <= now s + dt)%nat ->
  v <> debouncedValue s -> all_ws v = false ->
  step s (Elapse dt)
  = (with_now (now s + dt)%nat
       (with_inflight
          (<[nextId s := mkParams v (tagTypeProp s) (Some suggestionLimit)]>
             (inflight s))
          (S (nextId s))
          (with_error None
             (with_isLoading true
                (with_debouncedValue v (with_timer None (with_now t s)))))),
     [Lookup t (nextId s) (mkParams v (tagTypeProp s) (Some suggestionLimit))]).
Proof.
  intros T Hle Hne B. unfold step, elapse. rewrite T.
  destruct (Nat.leb_spec t (now s + dt)); [|lia].
  unfold useDebounce_timeout. simpl.
  destruct (String.eqb_spec v (debouncedValue s)); [congruence|].
  unfold fetchSuggestions. simpl. rewrite truthy_trim, B. reflexivity.
Qed.

(** C10 (amended).  After a commit (Enter on the cursor's suggestion or a
    click) of a suggestion whose name is not blank and differs from the
    settled query, with a caller that stores the name as the value: the
    dropdown is closed; when the debounce interval has elapsed, exactly one
    lookup has been issued, for the committed name, the current filter and
    limit 10; and if its response carries a non-empty batch the dropdown is
    open again. *)
Theorem commit_issues_lookup_for_new_name
    (s : State) (i : nat) (tag : TagAutocompleteResult) (e : Event) :
  reachable s ->
  isOpen s = true ->
  suggestions s !! i = Some tag ->
  (e = KeyDown Enter /\ selectedIndex s = Z.of_nat i) \/ e = Click i ->
  all_ws (name tag) = false ->
  name tag <> debouncedValue s ->
  let s1 := fst (controlled_step s e) in
  let s2 := fst (step s1 (Elapse debounceDelay)) in
  let q := mkParams (name tag) (tagTypeProp s) (Some suggestionLimit) in
  isOpen s1 = false
  /\ (exists t, (now s < t <= now s + debounceDelay)%nat
                /\ snd (step s1 (Elapse debounceDelay)) = [Lookup t (nextId s) q])
  /\ inflight s2 !! nextId s = Some q
  /\ forall env,
       default [] (TagService.data env) <> [] ->
       isOpen (fst (step s2 (Settle (nextId s) (Fulfilled env)))) = true.
Proof.
  intros R Hopen Hi He B Hne s1 s2 q.
  destruct (reachable_Inv s R) as [_ _ _ Htm Hst Hlc _].
  assert (F : exists t, (now s < t <= now s + debounceDelay)%nat
                /\ timer s1 = Some (name tag, t)
                /\ debouncedValue s1 = debouncedValue s /\ now s1 = now s
                /\ nextId s1 = nextId s /\ tagTypeProp s1 = tagTypeProp s
                /\ isOpen s1 = false).
  { subst s1. unfold controlled_step.
    rewrite (commit_step s i tag e Hopen Hi He). unfold handleSelectTag.
    assert (Hfeed : forall s0 : State,
              feed (OnChange (name tag) :: (if hasOnSelect s then [OnSelect tag] else [])) s0
              = fst (step s0 (SetValue (name tag))))
      by (intros s0; unfold feed; destruct (hasOnSelect s); reflexivity).
    cbn [fst snd]. rewrite Hfeed. unfold step.
    destruct (String.eqb_spec (name tag) (value (with_isOpen false s))) as [E|E];
      simpl in *.
    - destruct (timer s) as [[v due]|] eqn:T.
      + destruct (Htm v due eq_refl) as (-> & -> & Hnow).
        exists (lastChange s + debounceDelay)%nat. rewrite E.
        repeat split; try lia.
      + exfalso. apply Hne. rewrite E. symmetry. apply Hst. reflexivity.
    - exists (now s + debounceDelay)%nat. unfold debounceDelay.
      repeat split; lia. }
  destruct F as (t & Ht & T & D & N & I & TT & O).
  assert (S2 : step s1 (Elapse debounceDelay)
               = (with_now (now s1 + debounceDelay)%nat
                    (with_inflight (<[nextId s1 := q]> (inflight s1)) (S (nextId s1))
                       (with_error None (with_isLoading true
                          (with_debouncedValue (name tag)
                             (with_timer None (with_now t s1)))))),
                  [Lookup t (nextId s1) q])).
  { subst q. rewrite <- TT. apply elapse_fires; [exact T | lia | congruence | exact B]. }
  split; [exact O|]. split; [|split].
  - exists t. split; [exact Ht|]. rewrite S2, I. reflexivity.
  - subst s2. rewrite S2. simpl. rewrite I. apply lookup_insert_eq.
  - intros env Hdata. subst s2. rewrite S2. unfold step. simpl.
    rewrite I, lookup_insert_eq. unfold_step. simpl.
    destruct (TagService.data env) as [l|]; simpl in *; [|congruence].
    destruct l; [congruence|]. reflexivity.
Qed.

Lemma commit_issues_lookup_for_new_name_witness :
  let s := fst (run (fst (mount (mkProps "lo" None false)))
                 [Settle 0 (respond [LOL; LostArk])]) in
  reachable s
  /\ snd (step (fst (controlled_step s (Click 1))) (Elapse debounceDelay))
     = [Lookup 300 1 (mkParams "Lost Ark" None (Some 10))].
Proof.
  intros s.
  assert (R : reachable s) by (apply reachable_run, reachable_mount).
  split; [exact R|].
  destruct (commit_issues_lookup_for_new_name s 1 LostArk (Click 1) R)
    as (_ & (t & _ & E) & _).
  - reflexivity.
  - reflexivity.
  - right. reflexivity.
  - reflexivity.
  - vm_compute. discriminate.
  - vm_compute. reflexivity.
Defined.
End Claims.

(* ================================================================= *)
(** ** The scenarios of the component's tests *)

Section Scenarios.
Import Js Autocomplete Invariant Samples.

(** The query lol typed within 250 ms, then left alone for 300 ms: one
    lookup, for lol with limit 10. *)
Example typing_lol_issues_one_lookup :
  snd (run (fst (mount (mkProps "" None false)))
         [Elapse 50; Input "l"; Elapse 100; Input "lo"; Elapse 100; Input "lol";
          Elapse 299; Elapse 1])
  = [OnChange "l"; OnChange "lo"; OnChange "lol";
     Lookup 550 0 (mkParams "lol" None (Some 10))].
Proof. vm_compute. reflexivity. Qed.

(** Down, Down, Enter over the two suggestions LOL and Lost Ark. *)
Example down_down_enter_selects_second :
  let r := run (fst (mount (mkProps "lo" None true)))
             [Settle 0 (respond [LOL; LostArk]);
              KeyDown ArrowDown; KeyDown ArrowDown; KeyDown Enter] in
  snd r = [OnChange "Lost Ark"; OnSelect LostArk]
  /\ value (fst r) = "Lost Ark" /\ isOpen (fst r) = false.
Proof. vm_compute. repeat split; reflexivity. Qed.

(** The dropdown is open over a non-empty batch only, so once the effects
    of an empty batch have run the block of the empty state is not
    rendered. *)
Lemma empty_state_after_effects (s : State) :
  reachable s -> empty_state_rendered s = false.
Proof.
  intros R. destruct (reachable_Inv s R) as [_ _ Hop _ _ _ _].
  unfold empty_state_rendered. destruct (isOpen s); [|reflexivity].
  destruct (suggestions s); [exfalso; apply Hop; reflexivity|].
  simpl. apply andb_false_r.
Qed.

Example no_results_found :
  let s := fst (run (fst (mount (mkProps "xyz123" None false)))
                  [Settle 0 (respond [])]) in
  suggestions s = [] /\ isLoading s = false /\ isOpen s = false
  /\ empty_state_rendered s = false.
Proof. vm_compute. repeat split; reflexivity. Qed.

End Scenarios.

(* ================================================================= *)
(** ** Binary64 division by 1000 and [toFixed(1)] *)

Section FloatFacts.
Import Js Format.

Lemma digits2_pos_size (p : positive) : digits2_pos p = Pos.size p.
Proof. induction p; simpl; congruence. Qed.

Lemma Zdigits2_log2 (p : positive) : Zdigits2 (Z.pos p) = Z.log2 (Z.pos p) + 1.
Proof.
  simpl. rewrite digits2_pos_size. destruct p; simpl; try reflexivity.
  all: lia.
Qed.

Lemma Zdigits2_bounds (m d : Z) :
  0 < d -> 2 ^ (d - 1) <= m < 2 ^ d -> Zdigits2 m = d.
Proof.
  intros Hd Hm.
  assert (0 < m) by (pose proof (Z.pow_pos_nonneg 2 (d - 1)); lia).
  destruct m as [|p|p]; try lia.
  rewrite Zdigits2_log2.
  assert (Z.log2 (Z.pos p) = d - 1); [|lia].
  apply Z.log2_unique; [lia|]. replace (Z.succ (d - 1)) with d by lia. exact Hm.
Qed.

Lemma Zdigits2_inv (p : positive) (d : Z) :
  Zdigits2 (Z.pos p) = d -> 2 ^ (d - 1) <= Z.pos p < 2 ^ d.
Proof.
  rewrite Zdigits2_log2. intros <-.
  replace (Z.log2 (Z.pos p) + 1 - 1) with (Z.log2 (Z.pos p)) by lia.
  pose proof (Z.log2_spec (Z.pos p)). unfold Z.succ in *. lia.
Qed.

Lemma shr_1_spec (m : Z) (r s : bool) :
  0 <= m ->
  shr_1 (Build_shr_record m r s) = Build_shr_record (m / 2) (Z.odd m) (r || s).
Proof.
  intros Hm. destruct m as [|p|p]; try lia; simpl.
  - reflexivity.
  - destruct p; simpl.
    + rewrite Pos2Z.inj_xI. f_equal. 
      rewrite Z.add_comm, Z.mul_comm, Z.div_add by lia. reflexivity.
    + rewrite Pos2Z.inj_xO. f_equal. rewrite Z.mul_comm, Z.div_mul by lia. reflexivity.
    + reflexivity.
Qed.

Lemma shr_fexp_keep (m e : Z) (l : location) :
  Zdigits2 m = 53 -> -1074 <= e ->
  shr_fexp prec emax m e l = (shr_record_of_loc m l, e).
Proof.
  intros D He. unfold shr_fexp. rewrite D.
  unfold fexp, emin, prec, emax.
  replace (Z.max (53 + e - 53) (3 - 1024 - 53) - e) with 0 by lia.
  reflexivity.
Qed.

Lemma shr_fexp_shift (m e : Z) (l : location) :
  Zdigits2 m = 54 -> -1074 <= e ->
  shr_fexp prec emax m e l = (shr_1 (shr_record_of_loc m l), e + 1).
Proof.
  intros D He. unfold shr_fexp. rewrite D.
  unfold fexp, emin, prec, emax.
  replace (Z.max (54 + e - 53) (3 - 1024 - 53) - e) with 1 by lia.
  reflexivity.
Qed.


Lemma loc_of_shr_record_of_loc (m : Z) (l : location) :
  loc_of_shr_record (shr_record_of_loc m l) = l.
Proof. destruct l as [|[]]; reflexivity. Qed.

Lemma shr_m_record_of_loc (m : Z) (l : location) :
  shr_m (shr_record_of_loc m l) = m.
Proof. destruct l as [|[]]; reflexivity. Qed.

(** The second rounding step of [binary_round_aux], on a mantissa that the
    first one left with 53 digits, or with 2^53 after rounding up. *)
Lemma renormalize (r e : Z) :
  2 ^ 52 <= r <= 2 ^ 53 -> -1074 <= e <= 970 ->
  exists m ef,
    (let '(mrs, e') := shr_fexp prec emax r e loc_Exact in
     match shr_m mrs with
     | Z0 => S754_zero false
     | Zpos m => if e' <=? emax - prec then S754_finite false m e'
                 else S754_infinity false
     | Zneg _ => S754_nan
     end) = S754_finite false m ef
    /\ ((ef = e /\ Z.pos m = r) \/ (ef = e + 1 /\ 2 * Z.pos m = r /\ r = 2 ^ 53)).
Proof.
  intros Hr He.
  destruct (Z.eq_dec r (2 ^ 53)) as [->|Hne].
  - exists (Z.to_pos (2 ^ 52)), (e + 1).
    rewrite shr_fexp_shift by (try reflexivity; lia).
    simpl shr_m. unfold emax, prec.
    destruct (Z.leb_spec (e + 1) (1024 - 53)); [|lia].
    split; [reflexivity|]. right. repeat split; reflexivity.
  - assert (Hlt : r < 2 ^ 53) by lia.
    exists (Z.to_pos r), e.
    rewrite shr_fexp_keep by (try apply Zdigits2_bounds; lia).
    simpl shr_m. destruct r as [|p|p]; try lia.
    unfold emax, prec. destruct (Z.leb_spec e (1024 - 53)); [|lia].
    split; [reflexivity|]. left. split; reflexivity.
Qed.

(** Rounding the quotient of [Q] by an even [D], with 53 or 54 digits, to
    53 digits: the result is within half a unit in the last place. *)
Lemma round_quotient (Q D e : Z) :
  0 < D -> Z.even D = true ->
  2 ^ 52 <= Q / D < 2 ^ 54 - 2 -> -1074 <= e <= 960 ->
  exists m ef,
    binary_round_aux prec emax false (Q / D) e (new_location D (Q mod D))
      = S754_finite false m ef
    /\ ((ef = e /\ 2 * Z.abs (D * Z.pos m - Q) <= D)
        \/ (ef = e + 1 /\ Z.abs (2 * D * Z.pos m - Q) <= D)).
Proof.
  intros HD Hev Hq He.
  pose proof (Z.div_mod Q D ltac:(lia)) as HQ.
  pose proof (Z.mod_pos_bound Q D HD) as Hr.
  set (q := Q / D) in *. set (r := Q mod D) in *.
  assert (Hloc : new_location D r
                 = if r =? 0 then loc_Exact else loc_Inexact (2 * r ?= D)).
  { unfold new_location. rewrite Hev. reflexivity. }
  rewrite Hloc. clear Hloc.
  unfold binary_round_aux.
  destruct (Z_lt_ge_dec q (2 ^ 53)) as [H53|H54].
  - (* 53 digits: no shift *)
    rewrite shr_fexp_keep by (try apply Zdigits2_bounds; lia).
    rewrite loc_of_shr_record_of_loc, shr_m_record_of_loc.
    set (l := if r =? 0 then loc_Exact else loc_Inexact (2 * r ?= D)).
    assert (Hround : (round_nearest_even q l = q /\ 2 * r <= D)
                     \/ (round_nearest_even q l = q + 1 /\ D <= 2 * r)).
    { subst l. destruct (Z.eqb_spec r 0); simpl; [left; lia|].
      destruct (Z.compare_spec (2 * r) D); simpl.
      - match goal with |- context [if ?b then _ else _] => destruct b end;
          [left | right]; lia.
      - left. lia.
      - right. lia. }
    destruct (renormalize (round_nearest_even q l) e) as (m & ef & -> & Hm);
      [destruct Hround as [[-> _]|[-> _]]; lia | lia |].
    exists m, ef. split; [reflexivity|].
    destruct Hm as [[-> Hm]|(-> & Hm & _)]; [left | right]; (split; [reflexivity|]).
    + rewrite Hm. destruct Hround as [[-> ?]|[-> ?]]; lia.
    + replace (2 * D * Z.pos m) with (D * (2 * Z.pos m)) by lia.
      rewrite Hm. destruct Hround as [[-> ?]|[-> ?]]; lia.
  - (* 54 digits: one shift *)
    rewrite shr_fexp_shift by (try apply Zdigits2_bounds; lia).
    set (l := if r =? 0 then loc_Exact else loc_Inexact (2 * r ?= D)).
    assert (Hrec : shr_1 (shr_record_of_loc q l)
                   = Build_shr_record (q / 2) (Z.odd q) (negb (r =? 0))).
    { subst l. destruct (Z.eqb_spec r 0); simpl negb.
      - apply shr_1_spec. lia.
      - destruct (2 * r ?= D); simpl shr_record_of_loc;
          rewrite shr_1_spec by lia; reflexivity. }
    rewrite Hrec. simpl shr_m.
    pose proof (Z.div_mod q 2 ltac:(lia)) as Hq2.
    pose proof (Zmod_odd q) as Hodd.
    pose proof (Z.mod_pos_bound q 2 ltac:(lia)) as Hb.
    set (h := q / 2) in *.
    set (l' := loc_of_shr_record (Build_shr_record h (Z.odd q) (negb (r =? 0)))).
    assert (Hround : (round_nearest_even h l' = h /\ q mod 2 * D + r <= D)
                     \/ (round_nearest_even h l' = h + 1 /\ D <= q mod 2 * D + r)).
    { subst l'. destruct (Z.odd q); rewrite Hodd;
        destruct (Z.eqb_spec r 0); simpl.
      - match goal with |- context [if ?b then _ else _] => destruct b end;
          [left | right]; lia.
      - right. lia.
      - left. lia.
      - left. lia. }
    destruct (renormalize (round_nearest_even h l') (e + 1)) as (m & ef & -> & Hm);
      [destruct Hround as [[-> _]|[-> _]]; lia | lia |].
    exists m, ef. split; [reflexivity|].
    destruct Hm as [[-> Hm]|(-> & _ & Hm)].
    + right. split; [reflexivity|].
      replace (2 * D * Z.pos m) with (D * (2 * Z.pos m)) by lia.
      rewrite Hm. rewrite Hq2 in HQ.
      assert (0 <= q mod 2 * D <= D) by nia.
      destruct Hround as [[-> ?]|[-> ?]]; lia.
    + exfalso. destruct Hround as [[E _]|[E _]]; rewrite E in Hm; lia.
Qed.

Lemma round_exact (m e : Z) :
  2 ^ 52 <= m < 2 ^ 53 -> -1074 <= e <= 970 ->
  binary_round_aux prec emax false m e loc_Exact = S754_finite false (Z.to_pos m) e.
Proof.
  intros Hm He. unfold binary_round_aux.
  rewrite shr_fexp_keep by (try apply Zdigits2_bounds; lia).
  simpl shr_m. simpl loc_of_shr_record. simpl round_nearest_even.
  rewrite shr_fexp_keep by (try apply Zdigits2_bounds; lia).
  simpl shr_m. destruct m as [|p|p]; try lia.
  unfold emax, prec. destruct (Z.leb_spec e (1024 - 53)); [reflexivity | lia].
Qed.

Lemma iter_xO (p k : positive) : Z.pos (Pos.iter xO p k) = Z.pos p * 2 ^ Z.pos k.
Proof.
  induction k as [|k IH] using Pos.peano_ind.
  - simpl. lia.
  - rewrite Pos.iter_succ, Pos2Z.inj_xO, IH, Pos2Z.inj_succ, Z.pow_succ_r by lia.
    lia.
Qed.

(** An integer below 2^53 is a binary64 number: its digits, shifted to the
    top of a 53-bit mantissa. *)
Lemma number_of_Z_exact (c : Z) :
  0 < c < 2 ^ 53 ->
  exists m e,
    number_of_Z c = S754_finite false m e
    /\ e = Z.log2 c - 52
    /\ Z.pos m = c * 2 ^ (- e)
    /\ 2 ^ 52 <= Z.pos m < 2 ^ 53.
Proof.
  intros Hc. destruct c as [|p|p]; try lia.
  pose proof (Z.log2_spec (Z.pos p) ltac:(lia)) as Hlog.
  pose proof (Z.log2_nonneg (Z.pos p)) as Hnn.
  assert (Hlt : Z.log2 (Z.pos p) < 53).
  { apply Z.log2_lt_pow2; lia. }
  set (d := Z.log2 (Z.pos p)) in *.
  assert (Hbnd : 2 ^ 52 <= Z.pos p * 2 ^ (52 - d) < 2 ^ 53).
  { replace (2 ^ 52) with (2 ^ d * 2 ^ (52 - d))
      by (rewrite <- Z.pow_add_r by lia; f_equal; lia).
    replace (2 ^ 53) with (2 ^ Z.succ d * 2 ^ (52 - d))
      by (rewrite <- Z.pow_add_r by lia; f_equal; lia).
    pose proof (Z.pow_pos_nonneg 2 (52 - d) ltac:(lia) ltac:(lia)). nia. }
  unfold number_of_Z, binary_normalize, binary_round.
  replace (fexp prec emax (Z.pos (digits2_pos p) + 0)) with (d - 52).
  2:{ change (Z.pos (digits2_pos p)) with (Zdigits2 (Z.pos p)).
      rewrite Zdigits2_log2. fold d. unfold fexp, emin, prec, emax. lia. }
  unfold shl_align.
  destruct (d - 52 - 0) as [|k|k] eqn:K; try lia.
  - exists p, 0. assert (d = 52) by lia.
    replace (52 - d) with 0 in Hbnd by lia. rewrite Z.mul_1_r in Hbnd.
    rewrite round_exact by lia. simpl Z.to_pos.
    repeat split; try lia.
  - exists (Pos.iter xO p k), (d - 52).
    assert (E : Z.pos (Pos.iter xO p k) = Z.pos p * 2 ^ (52 - d)).
    { rewrite iter_xO. f_equal. f_equal. lia. }
    rewrite round_exact by (rewrite ?E; lia). simpl Z.to_pos.
    replace (- (d - 52)) with (52 - d) by lia.
    repeat split; try lia.
Qed.

Lemma div_eucl_div_mod (a b : Z) : Z.div_eucl a b = (a / b, a mod b).
Proof. unfold Z.div, Z.modulo. destruct (Z.div_eucl a b); reflexivity. Qed.

(** [count / 1000] for an integer count from 1000 to 2^53: a binary64
    number within half a unit in the last place of the quotient, whose last
    place is 2^-9 or finer. *)
Lemma div_1000_correctly_rounded (c : Z) :
  1000 <= c < 2 ^ 53 ->
  exists m e,
    number_div (number_of_Z c) (number_of_Z 1000) = S754_finite false m e
    /\ e <= -9
    /\ Z.abs (1000 * Z.pos m - c * 2 ^ (- e)) <= 500.
Proof.
  intros Hc.
  destruct (number_of_Z_exact c ltac:(lia)) as (m1 & e1 & -> & He1 & Hm1 & Hb1).
  assert (Hlog : 9 <= Z.log2 c < 53).
  { split; [apply Z.log2_le_pow2; lia | apply Z.log2_lt_pow2; lia]. }
  change (number_of_Z 1000) with (S754_finite false 8796093022208000 (-43)).
  unfold number_div, SFdiv, SFdiv_core_binary.
  rewrite (Zdigits2_bounds (Z.pos m1) 53) by lia.
  change (Zdigits2 8796093022208000) with 53.
  replace (Z.min (fexp prec emax (53 + e1 - (53 + -43))) (e1 - -43))
    with (e1 - 10) by (unfold fexp, emin, prec, emax; lia).
  replace (e1 - -43 - (e1 - 10)) with 53 by lia.
  cbv iota. rewrite Z.shiftl_mul_pow2 by lia.
  rewrite div_eucl_div_mod. simpl xorb.
  set (Q := Z.pos m1 * 2 ^ 53). set (D := 8796093022208000).
  destruct (round_quotient Q D (e1 - 10)) as (m & ef & -> & Hm);
    try (subst Q D; lia); try reflexivity.
  { subst Q D. split.
    - apply Z.div_le_lower_bound; lia.
    - apply Z.div_lt_upper_bound; lia. }
  exists m, ef. split; [reflexivity|].
  assert (Hp : 2 ^ (10 - e1) = 2 ^ (- e1) * 2 ^ 10)
    by (rewrite <- Z.pow_add_r by lia; f_equal; lia).
  assert (Hp' : 2 ^ (9 - e1) = 2 ^ (- e1) * 2 ^ 9)
    by (rewrite <- Z.pow_add_r by lia; f_equal; lia).
  destruct Hm as [[-> Hm]|[-> Hm]]; (split; [lia|]); subst Q D.
  - replace (- (e1 - 10)) with (10 - e1) by lia.
    rewrite Hp, Z.mul_assoc, <- Hm1. lia.
  - replace (- (e1 - 10 + 1)) with (9 - e1) by lia.
    rewrite Hp', Z.mul_assoc, <- Hm1. lia.
Qed.

(** The tenths [toFixed(1)] prints for such a quotient are the count's
    hundreds, rounded to the nearest. *)
Lemma nearest_tenths_of_quotient (c : Z) (m : positive) (e : Z) :
  e <= -9 ->
  Z.abs (1000 * Z.pos m - c * 2 ^ (- e)) <= 500 ->
  Z.abs (100 * nearest_tenths m e - c) <= 50.
Proof.
  intros He Hm. unfold nearest_tenths.
  destruct (Z.leb_spec 0 e); [lia|].
  replace (- e + 1) with (Z.succ (- e)) by lia.
  rewrite Z.pow_succ_r by lia.
  assert (HP : 2 ^ 9 <= 2 ^ (- e)) by (apply Z.pow_le_mono_r; lia).
  set (P := 2 ^ (- e)) in *.
  pose proof (Z.div_mod (20 * Z.pos m + P) (2 * P) ltac:(lia)) as Hdm.
  pose proof (Z.mod_pos_bound (20 * Z.pos m + P) (2 * P) ltac:(lia)) as Hmod.
  set (n := (20 * Z.pos m + P) / (2 * P)) in *.
  assert (H1 : 2 * (P * n) <= 20 * Z.pos m + P < 2 * (P * n) + 2 * P) by lia.
  clear Hdm Hmod.
  destruct (Z_le_gt_dec (Z.abs (100 * n - c)) 50) as [|Hgt]; [assumption|].
  exfalso.
  assert (H2 : 51 * P <= Z.abs (100 * n - c) * P) by nia.
  assert (H3 : Z.abs (100 * n - c) * P = Z.abs (100 * (P * n) - c * P)).
  { rewrite <- (Z.abs_eq P) at 1 by lia. rewrite <- Z.abs_mul. f_equal. lia. }
  rewrite H3 in H2. lia.
Qed.

(** C8.  [formatUsageCount] renders a missing count as "0", an integer count
    below 1000 as its decimal digits, and an integer count from 1000 up to
    2^53 as n/10 written with one decimal, followed by "k", where n/10 is
    the count divided by 1000 and rounded to one decimal place (it differs
    from count/1000 by at most 0.05).  So 1500 gives "1.5k", 5000 gives
    "5.0k" and 42 gives "42". *)
Theorem formatUsageCount_renders :
  formatUsageCount None = "0"
  /\ (forall c : Z, c < 1000 -> formatUsageCount (Some c) = toString c)
  /\ (forall c : Z,
        1000 <= c < 2 ^ 53 ->
        exists n : Z,
          formatUsageCount (Some c) = tenths_str n +:+ "k"
          /\ Z.abs (100 * n - c) <= 50)
  /\ formatUsageCount (Some 1500) = "1.5k"
  /\ formatUsageCount (Some 5000) = "5.0k"
  /\ formatUsageCount (Some 42) = "42".
Proof.
  split; [reflexivity|]. split; [|split].
  - intros c Hc. unfold formatUsageCount.
    destruct (Z.geb_spec c 1000); [lia | reflexivity].
  - intros c Hc. unfold formatUsageCount.
    destruct (Z.geb_spec c 1000); [|lia].
    destruct (div_1000_correctly_rounded c Hc) as (m & e & -> & He & Hm).
    exists (nearest_tenths m e). split; [reflexivity|].
    apply nearest_tenths_of_quotient; assumption.
  - repeat split; vm_compute; reflexivity.
Qed.

Lemma formatUsageCount_renders_witness :
  1000 <= 1234 < 2 ^ 53
  /\ exists n : Z,
       formatUsageCount (Some 1234) = tenths_str n +:+ "k"
       /\ Z.abs (100 * n - 1234) <= 50.
Proof.
  assert (H : 1000 <= 1234 < 2 ^ 53) by lia.
  split; [exact H|].
  exact (proj1 (proj2 (proj2 formatUsageCount_renders)) 1234 H).
Defined.
End FloatFacts.

(* ================================================================= *)
(** ** The controller: requests, bursts, the spinner, errors and the arrows *)

Section ControllerMore.
Import Js Autocomplete Invariant Typing.

(** A lookup is issued for the settled value, which is not blank, with the
    filter of the props and the limit 10; it is then awaited. *)
Lemma lookup_shape (s : State) (e : Event) (t id : nat) (q : TagAutocompleteParams) :
  In (Lookup t id q) (snd (step s e)) ->
  let s' := fst (step s e) in
  all_ws (prefix q) = false
  /\ q = mkParams (debouncedValue s') (tagTypeProp s') (Some suggestionLimit)
  /\ inflight s' !! id = Some q
  /\ isLoading s' = true /\ error s' = None.
Proof.
  intros H. pose proof H as Hc.
  apply lookup_cause in Hc
    as [(tt & -> & Hne & -> & ->) | (dt & v & -> & T & Hle & Hne & ->)];
    revert H; unfold step.
  - destruct (decide _); [congruence|].
    unfold fetchSuggestions. simpl. rewrite truthy_trim.
    destruct (all_ws (debouncedValue s)) eqn:B; simpl; [tauto|].
    intros [HIn|[]]. inversion HIn; subst. simpl.
    rewrite lookup_insert_eq. auto.
  - unfold elapse. rewrite T.
    destruct (Nat.leb_spec t (now s + dt)); [|lia].
    unfold useDebounce_timeout. simpl.
    destruct (String.eqb_spec v (debouncedValue s)); [congruence|].
    unfold fetchSuggestions. simpl. rewrite truthy_trim.
    destruct (all_ws v) eqn:B; simpl; [tauto|].
    intros [HIn|[]]. inversion HIn; subst. simpl.
    rewrite lookup_insert_eq. auto.
Qed.

Lemma mount_lookup_shape (p : Props) (t id : nat) (q : TagAutocompleteParams) :
  In (Lookup t id q) (snd (mount p)) ->
  all_ws (p_value p) = false
  /\ q = mkParams (p_value p) (p_tagType p) (Some suggestionLimit)
  /\ inflight (fst (mount p)) !! id = Some q.
Proof.
  unfold mount, fetchSuggestions. simpl. rewrite truthy_trim.
  destruct (all_ws (p_value p)) eqn:B; simpl; [tauto|].
  intros [HIn|[]]. inversion HIn; subst. simpl. rewrite lookup_insert_eq. auto.
Qed.

(** X1.  Every lookup the controller issues, at the mount or in a transition,
    is for a settled value that is not blank, is awaited under its id, and
    is the request GET /api/v1/tags/suggestions with the parameters prefix
    (the settled value), limit (10) and, when a filter is set, tagType, in
    this order. *)
Theorem lookup_requests :
  (forall p t id q,
     In (Lookup t id q) (snd (mount p)) ->
     all_ws (p_value p) = false
     /\ inflight (fst (mount p)) !! id = Some q
     /\ TagService.suggestions_request q
        = TagService.mkRequest "/api/v1/tags/suggestions"
            ([("prefix", p_value p); ("limit", "10")]
             ++ match p_tagType p with
                | Some ty => [("tagType", TagType_str ty)]
                | None => []
                end))
  /\ (forall s e t id q,
        In (Lookup t id q) (snd (step s e)) ->
        let s' := fst (step s e) in
        all_ws (debouncedValue s') = false
        /\ inflight s' !! id = Some q
        /\ TagService.suggestions_request q
           = TagService.mkRequest "/api/v1/tags/suggestions"
               ([("prefix", debouncedValue s'); ("limit", "10")]
                ++ match tagTypeProp s' with
                   | Some ty => [("tagType", TagType_str ty)]
                   | None => []
                   end)).
Proof.
  split.
  - intros p t id q H. apply mount_lookup_shape in H as (B & E & F).
    split; [exact B|]. split; [exact F|].
    rewrite E. unfold TagService.suggestions_request. simpl.
    destruct (p_tagType p); reflexivity.
  - intros s e t id q H. apply lookup_shape in H as (B & E & F & _).
    rewrite E in B. simpl in B. split; [exact B|]. split; [exact F|].
    rewrite E. unfold TagService.suggestions_request. simpl.
    destruct (tagTypeProp _); reflexivity.
Qed.

Lemma lookup_requests_witness :
  TagService.suggestions_request (mkParams "lol" (Some CUSTOM) (Some 10))
  = TagService.mkRequest "/api/v1/tags/suggestions"
      [("prefix", "lol"); ("limit", "10"); ("tagType", "CUSTOM")].
Proof.
  destruct lookup_requests as [_ H].
  destruct (H (fst (mount (mkProps "lol" None false))) (SetTagType (Some CUSTOM))
              0%nat 1%nat (mkParams "lol" (Some CUSTOM) (Some 10))
              ltac:(left; reflexivity)) as (_ & _ & E).
  exact E.
Defined.

(** One edit that changes the value, then a pause shorter than the debounce
    interval. *)
Lemma edit_then_pause (s : State) (v : string) (dt : nat) :
  v <> value s -> (dt < debounceDelay)%nat ->
  run s [Input v; Elapse dt]
  = (with_now (now s + dt)%nat (useDebounce_effect v (with_value v s)),
     [OnChange v]).
Proof.
  intros Hne Hdt. simpl. unfold controlled_step. simpl.
  destruct (String.eqb_spec v (value s)); [congruence|]. simpl.
  unfold elapse. simpl.
  destruct (Nat.leb_spec (now s + debounceDelay) (now s + dt)); [lia|].
  reflexivity.
Qed.

Lemma run_app (es1 es2 : list Event) (s : State) :
  run s (es1 ++ es2)
  = (fst (run (fst (run s es1)) es2),
     snd (run s es1) ++ snd (run (fst (run s es1)) es2)).
Proof.
  revert s. induction es1 as [|e es1 IH]; intros s; simpl.
  - destruct (run s es2); reflexivity.
  - destruct (controlled_step s e) as [s1 o1]. rewrite IH.
    destruct (run s1 es1) as [s2 o2]. simpl.
    destruct (run s2 es2) as [s3 o3]. simpl. rewrite app_assoc. reflexivity.
Qed.

Lemma last_value_cons (shown shown' : string) (k k' : string * nat)
    (rest : list (string * nat)) :
  last_value shown (k :: k' :: rest) = last_value shown' (k' :: rest).
Proof.
  unfold last_value. simpl. revert k'.
  induction rest as [|k'' rest IH]; intros k'; [reflexivity|].
  simpl in *. apply IH.
Qed.

(** X2.  A burst of edits, each changing the displayed value and each
    followed by a pause shorter than the debounce interval, calls [onChange]
    once per edit and nothing else: no lookup is issued, the settled value and
    the batch stay as they were, and a timeout for the last value is pending.
    When that timeout is due, one lookup is issued, for the last value, if it
    is not blank and differs from the settled value. *)
Theorem burst_is_debounced (keys : list (string * nat)) :
  forall s : State,
    keys <> [] ->
    each_edit_changes (value s) keys ->
    Forall (fun k => (snd k < debounceDelay)%nat) keys ->
    let s' := fst (run s (burst keys)) in
    let v := last_value (value s) keys in
    snd (run s (burst keys)) = map (fun k => OnChange (fst k)) keys
    /\ value s' = v
    /\ debouncedValue s' = debouncedValue s
    /\ suggestions s' = suggestions s
    /\ timer s' = Some (v, (lastChange s' + debounceDelay)%nat)
    /\ (now s' < lastChange s' + debounceDelay)%nat
    /\ (forall dt,
          (lastChange s' + debounceDelay <= now s' + dt)%nat ->
          v <> debouncedValue s -> all_ws v = false ->
          snd (step s' (Elapse dt))
          = [Lookup (lastChange s' + debounceDelay) (nextId s)
               (mkParams v (tagTypeProp s) (Some suggestionLimit))]).
Proof.
  induction keys as [|[v dt] rest IH]; intros s Hne Hch Hdt; [congruence|].
  destruct Hch as [Hv Hrest]. inversion Hdt as [|? ? Hd Hdts]; subst. simpl in Hd.
  change (burst ((v, dt) :: rest)) with ([Input v; Elapse dt] ++ burst rest).
  rewrite run_app, (edit_then_pause s v dt Hv Hd).
  cbn [fst snd].
  set (s1 := with_now (now s + dt)%nat (useDebounce_effect v (with_value v s))).
  destruct rest as [|k rest].
  - simpl. unfold last_value. simpl.
    repeat split; try reflexivity; try lia.
    intros dt' Hle Hnd B. unfold step, elapse. simpl.
    destruct (Nat.leb_spec (now s + debounceDelay) (now s + dt + dt')); [|lia].
    unfold useDebounce_timeout. simpl.
    destruct (String.eqb_spec v (debouncedValue s)); [congruence|].
    unfold fetchSuggestions. simpl. rewrite truthy_trim, B. reflexivity.
  - specialize (IH s1 ltac:(discriminate) Hrest Hdts).
    destruct IH as (O & V & D & Sg & T & N & L).
    rewrite (last_value_cons (value s) (value s1)).
    simpl map. rewrite O.
    repeat split; try assumption.
Qed.

Lemma burst_is_debounced_witness :
  let s := fst (mount (mkProps "" None false)) in
  let keys := [("l", 100%nat); ("lo", 100%nat); ("lol", 50%nat)] in
  snd (run s (burst keys)) = [OnChange "l"; OnChange "lo"; OnChange "lol"]
  /\ snd (step (fst (run s (burst keys))) (Elapse 250))
     = [Lookup 500 0 (mkParams "lol" None (Some 10))].
Proof.
  intros s keys.
  assert (H1 : keys <> []) by discriminate.
  assert (H2 : each_edit_changes (value s) keys)
    by (simpl; repeat split; discriminate).
  assert (H3 : Forall (fun k => (snd k < debounceDelay)%nat) keys)
    by (repeat constructor; unfold debounceDelay; simpl; lia).
  destruct (burst_is_debounced keys s H1 H2 H3) as (O & _ & _ & _ & _ & _ & L).
  split; [exact O|].
  rewrite (L 250%nat); [reflexivity | vm_compute; lia | discriminate | reflexivity].
Defined.

Lemma spinner_step (s : State) (e : Event) :
  (isLoading s = true -> inflight s <> ∅) ->
  isLoading (fst (step s e)) = true -> inflight (fst (step s e)) <> ∅.
Proof.
  intros IH. destruct e; unfold step.
  - destruct (String.eqb v (value s)); simpl; exact IH.
  - destruct (decide _); simpl; [exact IH|].
    unfold fetchSuggestions. simpl.
    destruct (truthy (trim (debouncedValue s))); simpl; [|exact IH].
    intros _. apply insert_non_empty.
  - simpl. exact IH.
  - unfold handleKeyDown, handleSelectTag.
    repeat case_match; simpl; exact IH.
  - unfold handleSelectTag. repeat case_match; simpl; exact IH.
  - simpl. exact IH.
  - unfold elapse. destruct (timer s) as [[v due]|]; simpl; [|exact IH].
    destruct (due <=? now s + dt)%nat; simpl; [|exact IH].
    unfold useDebounce_timeout. simpl.
    destruct (String.eqb v (debouncedValue s)); simpl; [exact IH|].
    unfold fetchSuggestions. simpl.
    destruct (truthy (trim v)); simpl; [|exact IH].
    intros _. apply insert_non_empty.
  - destruct (inflight s !! id); simpl; [|exact IH].
    unfold_step. destruct response; simpl; discriminate.
Qed.

(** X3.  In every reachable state, the spinner is shown only while some
    lookup is awaited; and when an awaited lookup settles, whether it succeeds
    or fails, the spinner is hidden, also while other lookups are still
    awaited. *)
Theorem spinner_means_pending (s : State) :
  reachable s ->
  (isLoading s = true -> exists id q, inflight s !! id = Some q)
  /\ (forall id q response,
        inflight s !! id = Some q ->
        isLoading (fst (step s (Settle id response))) = false).
Proof.
  intros R. split.
  - intros L.
    assert (Hne : inflight s <> ∅).
    { revert L. induction R as [p | s e R IH].
      - unfold mount, fetchSuggestions. simpl.
        destruct (truthy (trim (p_value p))); simpl; [|discriminate].
        intros _. apply insert_non_empty.
      - apply spinner_step, IH. }
    destruct (map_choose _ Hne) as (id & q & F). eauto.
  - intros id q response F. unfold step. rewrite F. unfold_step.
    destruct response; reflexivity.
Qed.

Lemma spinner_means_pending_witness :
  let s := fst (mount (mkProps "lol" None false)) in
  reachable s /\ isLoading s = true
  /\ exists id q, inflight s !! id = Some q.
Proof.
  intros s.
  assert (R : reachable s) by apply reachable_mount.
  split; [exact R|]. split; [reflexivity|].
  exact (proj1 (spinner_means_pending s R) eq_refl).
Defined.

(** X4.  The error message changes in two ways only: a transition that
    issues a lookup clears it, and the failure of an awaited lookup sets it
    to the message of the failure.  Every other transition, the success of a
    lookup included, issues no lookup and leaves the message as it was. *)
Theorem error_lifecycle (s : State) (e : Event) :
  let s' := fst (step s e) in
  ((exists t id q, In (Lookup t id q) (snd (step s e))) /\ error s' = None)
  \/ (exists id q err,
        e = Settle id (Rejected err) /\ inflight s !! id = Some q
        /\ error s' = Some (error_message err))
  \/ ((forall o, In o (snd (step s e)) -> is_lookup o = false)
      /\ error s' = error s).
Proof.
  destruct e; unfold step.
  - right; right. destruct (String.eqb v (value s)); simpl; tauto.
  - destruct (decide _); simpl; [right; right; tauto|].
    unfold fetchSuggestions. simpl.
    destruct (truthy (trim (debouncedValue s))); simpl.
    + left. split; [|reflexivity]. eauto.
    + right; right. tauto.
  - right; right. simpl. split; [|reflexivity]. intros o [<-|[]]. reflexivity.
  - right; right. unfold handleKeyDown, handleSelectTag.
    repeat case_match; simpl; (split; [|reflexivity]);
      intros o Ho; repeat (destruct Ho as [<-|Ho]; [reflexivity|]); destruct Ho.
  - right; right. unfold handleSelectTag.
    repeat case_match; simpl; (split; [|reflexivity]);
      intros o Ho; repeat (destruct Ho as [<-|Ho]; [reflexivity|]); destruct Ho.
  - right; right. simpl. tauto.
  - unfold elapse. destruct (timer s) as [[v due]|]; simpl;
      [|right; right; tauto].
    destruct (due <=? now s + dt)%nat; simpl; [|right; right; tauto].
    unfold useDebounce_timeout. simpl.
    destruct (String.eqb v (debouncedValue s)); simpl; [right; right; tauto|].
    unfold fetchSuggestions. simpl.
    destruct (truthy (trim v)); simpl.
    + left. split; [|reflexivity]. eauto.
    + right; right. tauto.
  - destruct (inflight s !! id) as [q|] eqn:F; simpl; [|right; right; tauto].
    unfold_step. destruct response as [env|err]; simpl.
    + right; right.
      destruct (0 <? length _)%nat; simpl; tauto.
    + right; left. exists id, q, err. auto.
Qed.

(** The arrows, with the dropdown open over [len] suggestions. *)
Lemma arrow_step (s : State) (k : Key) :
  isOpen s = true -> suggestions s <> [] ->
  k = ArrowDown \/ k = ArrowUp ->
  controlled_step s (KeyDown k)
  = (with_selectedIndex
       (let len := Z.of_nat (length (suggestions s)) in
        match k with
        | ArrowDown =>
            if selectedIndex s <? len - 1 then selectedIndex s + 1
            else selectedIndex s
        | _ => if selectedIndex s >? 0 then selectedIndex s - 1 else -1
        end) s, []).
Proof.
  intros O Hne Hk. unfold controlled_step, step, handleKeyDown. rewrite O. simpl.
  destruct (Z.eqb_spec (Z.of_nat (length (suggestions s))) 0) as [E|E].
  - destruct (suggestions s); [congruence | simpl in E; lia].
  - destruct Hk as [-> | ->]; reflexivity.
Qed.

Lemma arrows_iterate (n : nat) :
  forall s : State,
    isOpen s = true -> suggestions s <> [] ->
    -1 <= selectedIndex s < Z.of_nat (length (suggestions s)) ->
    let len := Z.of_nat (length (suggestions s)) in
    run s (presses ArrowDown n)
    = (with_selectedIndex (Z.min (selectedIndex s + Z.of_nat n) (len - 1)) s, [])
    /\ run s (presses ArrowUp n)
       = (with_selectedIndex (Z.max (selectedIndex s - Z.of_nat n) (-1)) s, []).
Proof.
  induction n as [|n IH]; intros s O Hne Hsel len.
  - assert (Hsame : with_selectedIndex (selectedIndex s) s = s)
      by (destruct s; reflexivity).
    unfold presses. cbn [repeat run Z.of_nat]. subst len.
    rewrite Z.add_0_r, Z.sub_0_r.
    rewrite Z.min_l by lia.
    replace (Z.max (selectedIndex s) (-1)) with (selectedIndex s) by lia.
    rewrite Hsame. split; reflexivity.
  - assert (Hpos : 0 < len)
      by (subst len; destruct (suggestions s); [congruence | simpl; lia]).
    unfold presses in *. cbn [repeat run].
    rewrite !arrow_step by auto. cbn zeta.
    set (d := if selectedIndex s <? Z.of_nat (length (suggestions s)) - 1
              then selectedIndex s + 1 else selectedIndex s).
    set (u := if selectedIndex s >? 0 then selectedIndex s - 1 else -1).
    assert (Hd : -1 <= d < len)
      by (subst d len; destruct (Z.ltb_spec (selectedIndex s)
            (Z.of_nat (length (suggestions s)) - 1)); lia).
    assert (Hu : -1 <= u < len).
    { subst u len. clear Hd. clearbody d.
      destruct (Z.gtb_spec (selectedIndex s) 0); lia. }
    destruct (IH (with_selectedIndex d s) O Hne Hd) as [-> _].
    destruct (IH (with_selectedIndex u s) O Hne Hu) as [_ ->].
    simpl. fold len. split; f_equal; unfold with_selectedIndex; simpl; f_equal.
    + subst d len. destruct (Z.ltb_spec (selectedIndex s)
                               (Z.of_nat (length (suggestions s)) - 1)); lia.
    + subst u len. destruct (Z.gtb_spec (selectedIndex s) 0); lia.
Qed.

(** X5.  With the dropdown open in a reachable state, pressing ArrowDown n
    times moves the cursor n suggestions down and stops at the last one;
    pressing ArrowUp n times moves it n up and stops at none (-1).  Nothing
    else changes and nothing is called. *)
Theorem arrows_repeated (s : State) (n : nat) :
  reachable s ->
  isOpen s = true ->
  let last := Z.of_nat (length (suggestions s)) - 1 in
  run s (presses ArrowDown n)
  = (with_selectedIndex (Z.min (selectedIndex s + Z.of_nat n) last) s, [])
  /\ run s (presses ArrowUp n)
     = (with_selectedIndex (Z.max (selectedIndex s - Z.of_nat n) (-1)) s, []).
Proof.
  intros R O. destruct (reachable_Inv s R) as [Hlo Hhi Hop _ _ _ _].
  pose proof (Hop O) as Hne. apply arrows_iterate; auto.
Qed.

Lemma arrows_repeated_witness :
  let s := fst (run (fst (mount (mkProps "lo" None false)))
                  [Settle 0 (Samples.respond [Samples.LOL; Samples.LostArk])]) in
  selectedIndex (fst (run s (presses ArrowDown 5))) = 1
  /\ selectedIndex (fst (run s (presses ArrowUp 5))) = -1.
Proof.
  intros s.
  assert (R : reachable s) by (apply reachable_run, reachable_mount).
  assert (O : isOpen s = true) by reflexivity.
  destruct (arrows_repeated s 5 R O) as [D U].
  rewrite D, U. split; reflexivity.
Defined.
End ControllerMore.

(* ================================================================= *)
(** ** formatUsageCount: nearest tenth and monotonicity *)

Section FormatMore.
Import Js Format.

(** The tenths shown for a count from 1000 to 2^53. *)
Lemma shown_tenths (c : Z) :
  1000 <= c < 2 ^ 53 ->
  exists n : Z,
    formatUsageCount (Some c) = tenths_str n +:+ "k"
    /\ Z.abs (100 * n - c) <= 50.
Proof.
  intros Hc. unfold formatUsageCount.
  destruct (Z.geb_spec c 1000); [|lia].
  destruct (div_1000_correctly_rounded c Hc) as (m & e & -> & He & Hm).
  exists (nearest_tenths m e). split; [reflexivity|].
  apply nearest_tenths_of_quotient; assumption.
Qed.

(** X6.  For a count from 1000 to 2^53 that is not exactly halfway between
    two tenths of a thousand, [formatUsageCount] shows the count divided by
    1000 and rounded to the nearest tenth, followed by k. *)
Theorem formatUsageCount_nearest (c : Z) :
  1000 <= c < 2 ^ 53 ->
  c mod 100 <> 50 ->
  formatUsageCount (Some c) = tenths_str ((c + 50) / 100) +:+ "k".
Proof.
  intros Hc Htie. destruct (shown_tenths c Hc) as (n & -> & Hn).
  f_equal. f_equal.
  pose proof (Z.div_mod c 100 ltac:(lia)) as Hdm.
  pose proof (Z.mod_pos_bound c 100 ltac:(lia)) as Hmod.
  apply Z.div_unique with (r := c + 50 - 100 * n); lia.
Qed.

Lemma formatUsageCount_nearest_witness :
  1000 <= 123456 < 2 ^ 53 /\ 123456 mod 100 <> 50
  /\ formatUsageCount (Some 123456) = "123.5k".
Proof.
  assert (H1 : 1000 <= 123456 < 2 ^ 53) by lia.
  assert (H2 : 123456 mod 100 <> 50) by (vm_compute; discriminate).
  split; [exact H1|]. split; [exact H2|].
  rewrite (formatUsageCount_nearest 123456 H1 H2). reflexivity.
Defined.

(** X7.  From 1000 to 2^53 the number shown by [formatUsageCount] never
    decreases when the count grows, and it is at least 1.0k. *)
Theorem formatUsageCount_monotone (c1 c2 : Z) :
  1000 <= c1 -> c1 <= c2 -> c2 < 2 ^ 53 ->
  exists n1 n2 : Z,
    formatUsageCount (Some c1) = tenths_str n1 +:+ "k"
    /\ formatUsageCount (Some c2) = tenths_str n2 +:+ "k"
    /\ 10 <= n1 <= n2.
Proof.
  intros H1 H12 H2.
  destruct (shown_tenths c1 ltac:(lia)) as (n1 & E1 & B1).
  destruct (Z.eq_dec c1 c2) as [<-|Hne].
  - exists n1, n1. repeat split; try assumption; lia.
  - destruct (shown_tenths c2 ltac:(lia)) as (n2 & E2 & B2).
    exists n1, n2. repeat split; try assumption; lia.
Qed.

Lemma formatUsageCount_monotone_witness :
  exists n1 n2 : Z,
    formatUsageCount (Some 1949) = tenths_str n1 +:+ "k"
    /\ formatUsageCount (Some 1950) = tenths_str n2 +:+ "k"
    /\ 10 <= n1 <= n2.
Proof.
  apply formatUsageCount_monotone; lia.
Defined.
End FormatMore.

(* ================================================================= *)
(** ** The page of subscriptions: the selected tags *)

Section TagsPageFacts.
Import Js Effects TagsPage.

Lemma includes_In (x : string) (l : list string) :
  includes x l = true <-> List.In x l.
Proof.
  unfold includes. rewrite existsb_exists. split.
  - intros (y & Hy & E). apply String.eqb_eq in E. subst. exact Hy.
  - intros H. exists x. split; [exact H | apply String.eqb_refl].
Qed.

Lemma includes_not_In (x : string) (l : list string) :
  includes x l = false <-> ~ List.In x l.
Proof.
  rewrite <- includes_In. destruct (includes x l); split; congruence.
Qed.

Lemma tagsOf_setSearchValue (t : TagType) (v : string) (s : State) :
  tagsOf t (setSearchValue v s) = tagsOf t s.
Proof. destruct t; reflexivity. Qed.

Lemma handleTagSelect_present (tag : TagAutocompleteResult) (s : State) :
  List.In (name tag) (tagsOf (selectedTagType s) s) ->
  handleTagSelect tag s = setSearchValue "" s.
Proof.
  intros H. apply includes_In in H. unfold handleTagSelect.
  destruct (selectedTagType s); simpl in H; rewrite H; reflexivity.
Qed.

Lemma setSearchValue_same (s : State) :
  searchValue s = "" -> setSearchValue "" s = s.
Proof. destruct s; simpl; intros ->; reflexivity. Qed.

(** X8.  [handleTagSelect] puts the name of the suggestion into the list of
    the selected tag type, at the end and only if it is not there yet: the
    list has the same names and this one, a list without duplicates stays
    so, the other list and the saved lists are untouched, the search value
    is cleared, and selecting the same suggestion again changes nothing. *)
Theorem handleTagSelect_adds_once (tag : TagAutocompleteResult) (s : State) :
  let t := selectedTagType s in
  let s' := handleTagSelect tag s in
  List.In (name tag) (tagsOf t s')
  /\ (forall x, List.In x (tagsOf t s') <-> List.In x (tagsOf t s) \/ x = name tag)
  /\ (List.NoDup (tagsOf t s) -> List.NoDup (tagsOf t s'))
  /\ (exists added, tagsOf t s' = tagsOf t s ++ added)
  /\ (forall t', t' <> t -> tagsOf t' s' = tagsOf t' s)
  /\ (forall t', originalTagsOf t' s' = originalTagsOf t' s)
  /\ searchValue s' = ""
  /\ handleTagSelect tag s' = s'.
Proof.
  intros t s'.
  assert (Hcases :
    (List.In (name tag) (tagsOf t s) /\ s' = setSearchValue "" s)
    \/ (~ List.In (name tag) (tagsOf t s)
        /\ tagsOf t s' = tagsOf t s ++ [name tag]
        /\ (forall t', t' <> t -> tagsOf t' s' = tagsOf t' s)
        /\ (forall t', originalTagsOf t' s' = originalTagsOf t' s)
        /\ searchValue s' = "" /\ selectedTagType s' = t)).
  { subst s' t. unfold handleTagSelect.
    destruct (selectedTagType s) eqn:T; simpl.
    - destruct (includes (name tag) (categoryTags s)) eqn:I; simpl.
      + left. split; [apply includes_In, I | reflexivity].
      + right. split; [apply includes_not_In, I|].
        split; [reflexivity|].
        split; [intros [] Hne; try reflexivity; congruence|].
        split; [intros []; reflexivity|]. split; [reflexivity | exact T].
    - destruct (includes (name tag) (customTags s)) eqn:I; simpl.
      + left. split; [apply includes_In, I | reflexivity].
      + right. split; [apply includes_not_In, I|].
        split; [reflexivity|].
        split; [intros [] Hne; try reflexivity; congruence|].
        split; [intros []; reflexivity|]. split; [reflexivity | exact T]. }
  destruct Hcases as [[Hin ->] | (Hnin & E & Hother & Horig & Hsv & Hsel)].
  - rewrite tagsOf_setSearchValue.
    split; [exact Hin|]. split.
    { intros x. split; [auto | intros [?| ->]; assumption]. }
    split; [auto|]. split; [exists []; rewrite app_nil_r; reflexivity|].
    split; [intros; apply tagsOf_setSearchValue|].
    split; [intros []; reflexivity|]. split; [reflexivity|].
    rewrite handleTagSelect_present by (simpl; rewrite tagsOf_setSearchValue; exact Hin).
    apply setSearchValue_same. reflexivity.
  - rewrite E. split; [apply in_or_app; right; left; reflexivity|].
    split.
    { intros x. rewrite in_app_iff. simpl. intuition. }
    split.
    { intros ND. apply NoDup_app_remove_l with (l := []). simpl.
      apply Permutation_NoDup with (l := name tag :: tagsOf t s).
      - apply Permutation_cons_append.
      - constructor; assumption. }
    split; [exists [name tag]; reflexivity|].
    split; [exact Hother|]. split; [exact Horig|]. split; [exact Hsv|].
    rewrite handleTagSelect_present
      by (rewrite Hsel, E; apply in_or_app; right; left; reflexivity).
    apply setSearchValue_same, Hsv.
Qed.

Lemma handleTagSelect_adds_once_witness :
  let s := setCustomTags ["lol"] initial in
  let s' := handleTagSelect (mkResult "fps" 3) s in
  List.NoDup (tagsOf CUSTOM s') /\ tagsOf CATEGORY s' = tagsOf CATEGORY s.
Proof.
  intros s s'.
  destruct (handleTagSelect_adds_once (mkResult "fps" 3) s)
    as (_ & _ & ND & _ & Hother & _).
  split.
  - apply ND. simpl. repeat constructor; simpl; intuition discriminate.
  - apply Hother. discriminate.
Defined.

Lemma filter_other_In (x y : string) (l : list string) :
  List.In x (List.filter (fun t => negb (String.eqb t y)) l)
  <-> List.In x l /\ x <> y.
Proof.
  rewrite filter_In. split; intros [H1 H2]; split; try assumption.
  - intros ->. rewrite String.eqb_refl in H2. discriminate.
  - destruct (String.eqb_spec x y); [congruence | reflexivity].
Qed.

Lemma filter_absent (y : string) (l : list string) :
  ~ List.In y l -> List.filter (fun t => negb (String.eqb t y)) l = l.
Proof.
  induction l as [|x l IH]; intros H; simpl; [reflexivity|].
  destruct (String.eqb_spec x y) as [->|Hne]; simpl.
  - exfalso. apply H. left. reflexivity.
  - f_equal. apply IH. intros Hin. apply H. right. exact Hin.
Qed.

(** X9.  [removeTag] removes every occurrence of the name from the list of
    the given type and nothing else: the other names stay, the other list,
    the saved lists and the search value are untouched, and removing a name
    that is not in the list changes nothing.  Removing a name right after
    selecting it, when it was not in the list, gives back the state with the
    search value cleared. *)
Theorem removeTag_removes (tagName : string) (t : TagType) (s : State) :
  let s' := removeTag tagName t s in
  (forall x, List.In x (tagsOf t s') <-> List.In x (tagsOf t s) /\ x <> tagName)
  /\ (List.NoDup (tagsOf t s) -> List.NoDup (tagsOf t s'))
  /\ (~ List.In tagName (tagsOf t s) -> s' = s)
  /\ (forall t', t' <> t -> tagsOf t' s' = tagsOf t' s)
  /\ (forall t', originalTagsOf t' s' = originalTagsOf t' s)
  /\ searchValue s' = searchValue s
  /\ (forall tag,
        name tag = tagName -> selectedTagType s = t ->
        ~ List.In tagName (tagsOf t s) ->
        removeTag tagName t (handleTagSelect tag s) = setSearchValue "" s).
Proof.
  intros s'. subst s'. split; [|split; [|split; [|split; [|split; [|split]]]]].
  - intros x. destruct t; simpl; apply filter_other_In.
  - intros ND. destruct t; simpl in *; apply List.NoDup_filter, ND.
  - intros H. unfold removeTag.
    destruct t; simpl in H; rewrite (filter_absent _ _ H); destruct s; reflexivity.
  - intros [] Hne; destruct t; try reflexivity; congruence.
  - intros []; destruct t; reflexivity.
  - destruct t; reflexivity.
  - intros tag <- <- Hnin. apply includes_not_In in Hnin.
    unfold handleTagSelect, removeTag.
    destruct (selectedTagType s) eqn:T; simpl in Hnin; rewrite Hnin; simpl;
      rewrite List.filter_app; simpl; rewrite String.eqb_refl; simpl;
      rewrite app_nil_r, filter_absent by (apply includes_not_In, Hnin);
      destruct s; simpl in *; subst; reflexivity.
Qed.

Lemma removeTag_removes_witness :
  let s := setCustomTags ["lol"] initial in
  removeTag "fps" CUSTOM (handleTagSelect (mkResult "fps" 3) s)
  = setSearchValue "" s.
Proof.
  intros s.
  destruct (removeTag_removes "fps" CUSTOM s) as (_ & _ & _ & _ & _ & _ & H).
  apply H; [reflexivity | reflexivity | simpl; intuition discriminate].
Defined.

Lemma tagsChanged_false (tags original : list string) :
  tagsChanged tags original = false
  <-> length tags = length original
      /\ (forall x, List.In x tags -> List.In x original).
Proof.
  unfold tagsChanged. rewrite orb_false_iff, negb_false_iff, Nat.eqb_eq.
  split; intros [HL HI]; split; try assumption.
  - intros x Hx. apply includes_In.
    destruct (includes x original) eqn:I; [reflexivity|].
    assert (Hex : existsb (fun tag => negb (includes tag original)) tags = true)
      by (apply existsb_exists; exists x; rewrite I; auto).
    congruence.
  - destruct (existsb _ tags) eqn:E; [|reflexivity].
    apply existsb_exists in E as (x & Hx & Hn).
    apply HI, includes_In in Hx. rewrite Hx in Hn. discriminate.
Qed.

Lemma tagsChanged_permutation (tags original : list string) :
  List.NoDup tags ->
  (tagsChanged tags original = false <-> Permutation tags original).
Proof.
  intros ND. rewrite tagsChanged_false. split.
  - intros [HL HI]. apply NoDup_Permutation_bis; [exact ND | lia | exact HI].
  - intros P. split; [apply Permutation_length, P|].
    intros x. apply Permutation_in, P.
Qed.

Lemma tagsChanged_perm (tags tags' original : list string) :
  Permutation tags tags' ->
  tagsChanged tags original = tagsChanged tags' original.
Proof.
  intros P. unfold tagsChanged.
  rewrite (Permutation_length P). f_equal.
  apply eq_true_iff_eq. rewrite !existsb_exists.
  split; intros (x & Hx & Hn); exists x; split; try assumption.
  - apply (Permutation_in _ P), Hx.
  - apply (Permutation_in _ (Permutation_sym P)), Hx.
Qed.

Lemma readd_permutation (y : string) (l : list string) :
  List.NoDup l -> List.In y l ->
  Permutation (List.filter (fun x => negb (String.eqb x y)) l ++ [y]) l.
Proof.
  intros ND Hl. apply Permutation.NoDup_Permutation.
  - eapply Permutation.Permutation_NoDup; [apply Permutation.Permutation_cons_append|].
    constructor; [|apply List.NoDup_filter, ND].
    rewrite filter_other_In. tauto.
  - exact ND.
  - intros x. rewrite in_app_iff, filter_other_In. simpl.
    destruct (String.eqb_spec x y) as [->|Hne]; [tauto|].
    split; [intros [[? _]|[?|[]]]; congruence || assumption | tauto].
Qed.

(** X10.  When the two lists of selected tags have no duplicates,
    [hasChanges] is false exactly when each list is a permutation of its
    saved list: the order of the tags is no change. *)
Theorem hasChanges_iff_permutation (s : State) :
  List.NoDup (customTags s) -> List.NoDup (categoryTags s) ->
  (hasChanges s = false
   <-> Permutation (customTags s) (originalCustomTags s)
       /\ Permutation (categoryTags s) (originalCategoryTags s)).
Proof.
  intros N1 N2. unfold hasChanges. rewrite orb_false_iff.
  rewrite (tagsChanged_permutation _ _ N1), (tagsChanged_permutation _ _ N2).
  reflexivity.
Qed.

Lemma hasChanges_iff_permutation_witness :
  hasChanges
    (setCustomTags ["b"; "a"] (setOriginalCustomTags ["a"; "b"] initial)) = false
  <-> Permutation ["b"; "a"] ["a"; "b"] /\ Permutation (@nil string) [].
Proof.
  apply (hasChanges_iff_permutation
           (setCustomTags ["b"; "a"] (setOriginalCustomTags ["a"; "b"] initial)));
    simpl; repeat constructor; simpl; intuition discriminate.
Defined.

(** X11.  Removing a tag that is in the list of the selected type (a list
    without duplicates) and selecting it again gives a permutation of the
    list; the other list is untouched and [hasChanges] is what it was. *)
Theorem remove_then_select_again (tag : TagAutocompleteResult) (s : State) :
  let t := selectedTagType s in
  let s' := handleTagSelect tag (removeTag (name tag) t s) in
  List.NoDup (tagsOf t s) -> List.In (name tag) (tagsOf t s) ->
  Permutation (tagsOf t s') (tagsOf t s)
  /\ (forall t', t' <> t -> tagsOf t' s' = tagsOf t' s)
  /\ hasChanges s' = hasChanges s.
Proof.
  intros t s' ND Hin. subst t s'.
  pose proof (readd_permutation (name tag) _ ND Hin) as P.
  assert (Hno : forall l : list string,
            includes (name tag)
              (List.filter (fun x => negb (String.eqb x (name tag))) l) = false).
  { intros l. apply includes_not_In. rewrite filter_other_In. tauto. }
  unfold handleTagSelect, removeTag, hasChanges.
  destruct (selectedTagType s) eqn:T; simpl in *; rewrite ?T, Hno; simpl;
    (split; [exact P | split; [intros [] Hne; congruence || reflexivity|]]);
    rewrite (tagsChanged_perm _ _ _ P); reflexivity.
Qed.

Lemma remove_then_select_again_witness :
  let s := setCustomTags ["a"; "b"] (setOriginalCustomTags ["a"; "b"] initial) in
  let s' := handleTagSelect (mkResult "a" 3) (removeTag "a" CUSTOM s) in
  tagsOf CUSTOM s' = ["b"; "a"] /\ hasChanges s' = false.
Proof.
  intros s s'. split; [reflexivity|].
  refine (eq_trans
            (proj2 (proj2 (remove_then_select_again (mkResult "a" 3) s _ _))) _).
  - simpl. repeat constructor; simpl; intuition discriminate.
  - simpl. auto.
  - reflexivity.
Defined.
End TagsPageFacts.

(* ================================================================= *)
(** ** The page of subscriptions: requests *)

Section TagsPageRequests.
Import Js Effects Async TagsPage.

Lemma tagsChanged_same (l : list string) : tagsChanged l l = false.
Proof.
  unfold tagsChanged. rewrite Nat.eqb_refl. simpl.
  destruct (existsb _ l) eqn:E; [|reflexivity].
  apply existsb_exists in E as (x & Hx & Hn).
  apply includes_In in Hx. rewrite Hx in Hn. discriminate.
Qed.

(** X12.  [saveChanges] never throws and ends with [saving] false and the
    modal closed; it never changes the selected tags.  It sends, in this
    order, the notification request (when asked to enable notifications),
    the custom tags and the category tags of its render, the lists only when
    they differ from the saved ones, and nothing after a request that failed.
    When every request it sent succeeded, the saved lists become the lists
    of its render, with no error logged, so that [hasChanges] is false if the
    tags were not edited meanwhile; when one failed, the saved lists stay as
    they were, also for a list already sent, and the failure is logged.
    Notifications are switched on when the notification request was sent
    and succeeded, and are left as they were otherwise. *)
Theorem saveChanges_outcome (r s : State) (u : Auth.User) (enableNotification : bool)
    (notification custom category : Settled unit) :
  let customChanged := tagsChanged (customTags r) (originalCustomTags r) in
  let categoryChanged := tagsChanged (categoryTags r) (originalCategoryTags r) in
  let ok :=
    implb enableNotification (fulfilled notification)
    && implb customChanged (fulfilled custom)
    && implb categoryChanged (fulfilled category) in
  let m := saveChanges r (Some u) enableNotification notification custom category in
  let s' := state_after m s in
  let patchNotification := mkCall PATCH (notificationUrl true) NoBody in
  let patchCustom :=
    mkCall PATCH (memberTagsUrl u) (UpdateTagsRequest (customTags r) CUSTOM) in
  let patchCategory :=
    mkCall PATCH (memberTagsUrl u) (UpdateTagsRequest (categoryTags r) CATEGORY) in
  result m s = Some tt
  /\ saving s' = false /\ showNotificationModal s' = false
  /\ customTags s' = customTags s /\ categoryTags s' = categoryTags s
  /\ notificationEnabled s'
     = (if enableNotification && fulfilled notification then true
        else notificationEnabled s)
  /\ requests (effects m s)
     = (let rest2 := if categoryChanged then [patchCategory] else [] in
        let rest1 :=
          if customChanged
          then patchCustom :: (if fulfilled custom then rest2 else [])
          else rest2 in
        if enableNotification
        then patchNotification :: (if fulfilled notification then rest1 else [])
        else rest1)
  /\ (ok = true ->
      originalCustomTags s' = customTags r
      /\ originalCategoryTags s' = categoryTags r
      /\ List.filter (fun e => negb (is_request e)) (effects m s) = []
      /\ (customTags s = customTags r -> categoryTags s = categoryTags r ->
          hasChanges s' = false))
  /\ (ok = false ->
      originalCustomTags s' = originalCustomTags s
      /\ originalCategoryTags s' = originalCategoryTags s
      /\ List.filter (fun e => negb (is_request e)) (effects m s)
         = [ConsoleError "Failed to save tags:"]).
Proof.
  intros customChanged categoryChanged ok m s' pn pc pg.
  subst ok m s' pn pc pg. unfold saveChanges.
  fold customChanged categoryChanged.
  assert (Hsame : forall s0 : State,
            customTags s0 = customTags r -> categoryTags s0 = categoryTags r ->
            originalCustomTags s0 = customTags r ->
            originalCategoryTags s0 = categoryTags r ->
            hasChanges s0 = false).
  { intros s0 E1 E2 E3 E4. unfold hasChanges.
    rewrite E1, E2, E3, E4, !tagsChanged_same. reflexivity. }
  clearbody customChanged categoryChanged.
  destruct enableNotification, notification, custom, category,
    customChanged, categoryChanged;
    cbn; repeat split; try reflexivity; try discriminate;
    intros; apply Hsame; cbn; first [assumption | reflexivity].
Qed.


Lemma saveChanges_outcome_witness :
  let r := setCustomTags ["lol"] initial in
  let m := saveChanges r (Some (Auth.mkUser "u1" "d1" "nick")) false
             (Fulfilled tt) (Fulfilled tt) (Fulfilled tt) in
  hasChanges r = true /\ hasChanges (state_after m r) = false.
Proof.
  intros r m. split; [reflexivity|].
  destruct (saveChanges_outcome r r (Auth.mkUser "u1" "d1" "nick") false
              (Fulfilled tt) (Fulfilled tt) (Fulfilled tt))
    as (_ & _ & _ & _ & _ & _ & _ & Hok & _).
  apply Hok; reflexivity.
Defined.

(** X13.  The save button ([handleSaveClick]) never throws.  With
    notifications off it only opens the modal; with nothing changed in its
    render it sends no request; every request it sends is a PATCH of the
    member's tags, with the custom or the category tags of its render. *)
Theorem handleSaveClick_requests (r s : State) (user : option Auth.User)
    (custom category : Settled unit) :
  let m := handleSaveClick r user custom category in
  result m s = Some tt
  /\ (notificationEnabled r = false ->
      effects m s = [] /\ state_after m s = setShowNotificationModal true s)
  /\ (hasChanges r = false -> requests (effects m s) = [])
  /\ (forall c, List.In c (requests (effects m s)) ->
        exists u, user = Some u /\ method c = PATCH /\ url c = memberTagsUrl u
                  /\ (body c = UpdateTagsRequest (customTags r) CUSTOM
                      \/ body c = UpdateTagsRequest (categoryTags r) CATEGORY)).
Proof.
  intros m. subst m. unfold handleSaveClick, hasChanges, saveChanges.
  destruct (notificationEnabled r), user as [u|], custom, category,
    (tagsChanged (customTags r) _), (tagsChanged (categoryTags r) _);
    cbn; repeat split; try reflexivity; try discriminate; try tauto;
    intros c Hc; exists u; repeat (destruct Hc as [<-|Hc]); try tauto;
    cbn; auto.
Qed.

Lemma handleSaveClick_requests_witness :
  let r := setNotificationEnabled false (setCustomTags ["lol"] initial) in
  effects (handleSaveClick r (Some (Auth.mkUser "u1" "d1" "nick"))
             (Fulfilled tt) (Fulfilled tt)) r = [].
Proof.
  intros r.
  destruct (handleSaveClick_requests r r (Some (Auth.mkUser "u1" "d1" "nick"))
              (Fulfilled tt) (Fulfilled tt)) as (_ & Hoff & _).
  apply Hoff. reflexivity.
Defined.

(** X14.  A click on the notification switch sends one PATCH, for the
    opposite of what its render shows, and never throws.  When the request
    succeeds the switch shows that opposite; when it fails, the failure is
    logged and the switch shows what its render showed.  Either way
    [notificationToggling] ends false and nothing else changes. *)
Theorem notification_switch (r s : State) (response : Settled unit) :
  let enabled := negb (notificationEnabled r) in
  let m := handleNotificationToggle enabled response in
  let s' := state_after m s in
  result m s = Some tt
  /\ requests (effects m s) = [mkCall PATCH (notificationUrl enabled) NoBody]
  /\ s' = setNotificationToggling false
            (setNotificationEnabled
               (if fulfilled response then negb (notificationEnabled r)
                else notificationEnabled r) s)
  /\ (fulfilled response = false ->
      List.In (ConsoleError "Failed to update notification settings:")
        (effects m s)).
Proof.
  intros enabled m s'. subst enabled m s'. unfold handleNotificationToggle.
  destruct response; cbn; rewrite ?negb_involutive;
    repeat split; try reflexivity; try discriminate; auto.
Qed.

Lemma notification_switch_witness :
  List.In (ConsoleError "Failed to update notification settings:")
    (effects (handleNotificationToggle (negb (notificationEnabled initial))
                (Rejected OtherValue)) initial).
Proof.
  destruct (notification_switch initial initial (@Rejected unit OtherValue))
    as (_ & _ & _ & H).
  apply H. reflexivity.
Defined.

(** X15.  [fetchTags] of the page of subscriptions never throws.  Without a
    user it does nothing at all.  With a user it sends one GET for the
    member's tags and ends with [loading] false: on success the selected and
    the saved lists are the names the server returned (none for a null
    payload) and [hasChanges] is false; on failure the failure is logged and
    nothing but [loading] changes. *)
Theorem fetchTags_outcome (user : option Auth.User)
    (response : Settled (option Member.MemberTagsResponse)) (s : State) :
  let m := fetchTags user response in
  let s' := state_after m s in
  result m s = Some tt
  /\ match user with
     | None => effects m s = [] /\ s' = s
     | Some u =>
         requests (effects m s) = [mkCall GET (memberTagsUrl u) NoBody]
         /\ loading s' = false
         /\ match response with
            | Fulfilled data =>
                let custom :=
                  map Member.tagName
                    (match data with Some d => Member.customTags d | None => [] end) in
                let category :=
                  map Member.tagName
                    (match data with Some d => Member.categoryTags d | None => [] end) in
                customTags s' = custom /\ originalCustomTags s' = custom
                /\ categoryTags s' = category /\ originalCategoryTags s' = category
                /\ hasChanges s' = false
                /\ effects m s = [Request (mkCall GET (memberTagsUrl u) NoBody)]
            | Rejected _ =>
                s' = setLoading false s
                /\ List.In (ConsoleError "Failed to fetch tags:") (effects m s)
            end
     end.
Proof.
  intros m s'. subst m s'. unfold fetchTags.
  destruct user as [u|]; [|cbn; auto].
  destruct response as [data|e]; cbn.
  - repeat split; try reflexivity.
    unfold hasChanges. cbn. rewrite !tagsChanged_same. reflexivity.
  - repeat split; auto.
Qed.

End TagsPageRequests.

(* ================================================================= *)
(** ** The page of subscriptions and its controller *)

Section PageAndController.
Import Js Invariant TagsPage.
Import Autocomplete (Event(..), Key(..), Output(..), step, reachable).

Lemma handleTagSelect_setSearchValue (tag : TagAutocompleteResult) (v : string)
    (page : State) :
  handleTagSelect tag (setSearchValue v page) = handleTagSelect tag page.
Proof.
  unfold handleTagSelect. destruct page as [[] ? ? ? ? ? ? ? ? ? ?]; simpl;
    destruct (negb _); reflexivity.
Qed.

Lemma Quiet_event (page : State) (child : Autocomplete.State) (e : Event) :
  Quiet page child -> no_typing e = true ->
  Quiet (fst (fst (autocomplete_event page child e)))
        (snd (fst (autocomplete_event page child e)))
  /\ forall o, In o (snd (autocomplete_event page child e)) -> is_lookup o = false.
Proof.
  intros [I S V P] N. unfold autocomplete_event.
  pose proof (Inv_step child e I) as I1.
  assert (L : forall o, In o (snd (step child e)) -> is_lookup o = false).
  { intros [| |t id q|] Ho; try reflexivity. exfalso.
    pose proof (lookup_shape _ _ _ _ _ Ho) as (B & _).
    apply lookup_cause in Ho as [(tt & -> & _) | (dt & v & -> & T & _ & _ & ->)];
      [discriminate N|].
    apply (inv_timer _ I) in T as (-> & _). rewrite V in B. discriminate B. }
  assert (K : Autocomplete.hasOnSelect (fst (step child e)) = true
              /\ Autocomplete.value (fst (step child e)) = ""
              /\ searchValue (on_outputs (snd (step child e)) page) = "").
  { clear I I1 L. destruct e; try discriminate N; unfold step.
    - unfold Autocomplete.handleKeyDown, Autocomplete.handleSelectTag.
      rewrite S. repeat case_match; simpl; auto.
    - unfold Autocomplete.handleSelectTag.
      rewrite S. repeat case_match; simpl; auto.
    - simpl. auto.
    - unfold Autocomplete.elapse.
      destruct (Autocomplete.timer child) as [[v due]|]; simpl; auto.
      destruct (due <=? Autocomplete.now child + dt)%nat; simpl; auto.
      unfold Autocomplete.useDebounce_timeout. simpl.
      destruct (String.eqb v (Autocomplete.debouncedValue child)); simpl; auto.
      unfold Autocomplete.fetchSuggestions. simpl.
      destruct (negb (truthy (trim v))); simpl; auto.
    - destruct (Autocomplete.inflight child !! id); simpl; auto.
      unfold_step. destruct response; simpl; repeat case_match; simpl; auto.
}
  destruct (step child e) as [child1 out] eqn:E. simpl in *.
  destruct K as (S1 & V1 & P1).
  rewrite P1. unfold step. rewrite V1. simpl.
  split; [constructor; assumption | exact L].
Qed.

Lemma Quiet_run (es : list Event) :
  forall page child,
    Quiet page child -> forallb no_typing es = true ->
    Quiet (fst (fst (autocomplete_run page child es)))
          (snd (fst (autocomplete_run page child es)))
    /\ forall o, In o (snd (autocomplete_run page child es)) -> is_lookup o = false.
Proof.
  induction es as [|e es IH]; intros page child Q N; simpl in *.
  - split; [exact Q | tauto].
  - apply andb_prop in N as [Ne Nes].
    destruct (Quiet_event page child e Q Ne) as [Q1 L1].
    destruct (autocomplete_event page child e) as [[page1 child1] out1].
    simpl in *.
    destruct (IH page1 child1 Q1 Nes) as [Q2 L2].
    destruct (autocomplete_run page1 child1 es) as [[page2 child2] out2].
    simpl in *. split; [exact Q2|].
    intros o Ho. apply in_app_or in Ho as [Ho|Ho]; auto.
Qed.

(** X16.  In the page of subscriptions, committing a suggestion of the open
    dropdown (Enter on the cursor, or a click) calls [onChange] and
    [onSelect], after which the page holds the tag as [handleTagSelect]
    leaves it, the controller shows the empty value and the dropdown is
    closed.  From then on, whatever keys, clicks, dismissals, pauses and
    responses follow, as long as the user types nothing and the props do not
    change, no lookup is issued and the value stays empty. *)
Theorem page_commit_is_silent (page : State) (child : Autocomplete.State)
    (i : nat) (tag : TagAutocompleteResult) (e : Event) (es : list Event) :
  reachable child ->
  Autocomplete.hasOnSelect child = true ->
  Autocomplete.isOpen child = true ->
  Autocomplete.suggestions child !! i = Some tag ->
  (e = KeyDown Enter /\ Autocomplete.selectedIndex child = Z.of_nat i)
  \/ e = Click i ->
  forallb no_typing es = true ->
  let page1 := fst (fst (autocomplete_event page child e)) in
  let child1 := snd (fst (autocomplete_event page child e)) in
  let after := autocomplete_run page1 child1 es in
  snd (autocomplete_event page child e) = [OnChange (name tag); OnSelect tag]
  /\ page1 = handleTagSelect tag page
  /\ Autocomplete.value child1 = ""
  /\ Autocomplete.isOpen child1 = false
  /\ (forall o, In o (snd after) -> is_lookup o = false)
  /\ searchValue (fst (fst after)) = ""
  /\ Autocomplete.value (snd (fst after)) = "".
Proof.
  intros R S O Hi He N page1 child1 after.
  assert (Q : snd (autocomplete_event page child e)
              = [OnChange (name tag); OnSelect tag]
              /\ page1 = handleTagSelect tag page
              /\ Autocomplete.isOpen child1 = false
              /\ Quiet page1 child1).
  { subst page1 child1. unfold autocomplete_event.
    pose proof (Inv_step child e (reachable_Inv child R)) as I1.
    rewrite (commit_step child i tag e O Hi He) in *.
    unfold Autocomplete.handleSelectTag in *. rewrite S in *. simpl in *.
    rewrite handleTagSelect_setSearchValue.
    split; [reflexivity|]. split; [reflexivity|].
    pose proof (Inv_step _ (SetValue "") I1) as I2.
    unfold step in I2. simpl in I2.
    destruct (Autocomplete.value child) eqn:V; simpl in *;
      (split; [reflexivity|]); constructor; auto. }
  destruct Q as (Hout & Hpage & Hopen & Q).
  destruct (Quiet_run es page1 child1 Q N) as [[_ _ V2 P2] L2].
  split; [exact Hout|]. split; [exact Hpage|].
  split; [apply (quiet_value _ _ Q)|]. split; [exact Hopen|].
  split; [exact L2|]. split; assumption.
Qed.

Lemma page_commit_is_silent_witness :
  let page := setSearchValue "lo" initial in
  let child :=
    fst (Autocomplete.run (fst (Autocomplete.mount (autocomplete_props page)))
           [Settle 0 (Samples.respond [Samples.LOL; Samples.LostArk])]) in
  let es := [Elapse 300; KeyDown ArrowDown; Elapse 1000] in
  let page1 := fst (fst (autocomplete_event page child (Click 0))) in
  let child1 := snd (fst (autocomplete_event page child (Click 0))) in
  customTags page1 = ["LOL"]
  /\ forall o, In o (snd (autocomplete_run page1 child1 es)) -> is_lookup o = false.
Proof.
  intros page child es page1 child1.
  assert (R : reachable child) by (apply reachable_run, Autocomplete.reachable_mount).
  destruct (page_commit_is_silent page child 0 Samples.LOL (Click 0) es R
              eq_refl eq_refl eq_refl (or_intror eq_refl) eq_refl)
    as (_ & P & _ & _ & L & _).
  split; [|exact L].
  unfold page1. rewrite P. reflexivity.
Defined.

End PageAndController.

(* ================================================================= *)
(** ** The authentication context, the callback page and the list of tags *)

Section AuthFacts.
Import Js Effects Async.
Import AuthContext.

(** X17.  [checkAuthStatus] never throws and ends with [isLoading] false.
    Without an access token in the storage (none, or the empty string) it
    sends nothing and changes nothing else.  With one it sends one GET of
    /api/v1/members/me: on success the user is the payload (null included)
    and the storage is untouched; on failure both tokens are removed, every
    other item of the storage is kept, and the user stays as it was. *)
Theorem checkAuthStatus_outcome (response : Settled (option Auth.User)) (s : State) :
  let m := checkAuthStatus response in
  let s' := state_after m s in
  result m s = Some tt
  /\ isLoading s' = false
  /\ (has_token s = false -> effects m s = [] /\ s' = setIsLoading false s)
  /\ (has_token s = true ->
      effects m s = [Request (mkCall GET "/api/v1/members/me" NoBody)]
      /\ match response with
         | Fulfilled data => user s' = data /\ localStorage s' = localStorage s
         | Rejected _ =>
             user s' = user s
             /\ getItem "accessToken" s' = None
             /\ getItem "refreshToken" s' = None
             /\ (forall key, key <> "accessToken" -> key <> "refreshToken" ->
                   getItem key s' = getItem key s)
             /\ has_token s' = false
         end).
Proof.
  intros m s'. subst m s'. unfold checkAuthStatus, state_after, result, effects.
  destruct (has_token s) eqn:T; simpl.
  - split; [destruct response; reflexivity|].
    split; [destruct response; reflexivity|].
    split; [discriminate|]. intros _.
    destruct response as [data|e]; cbn; [auto|].
    split; [reflexivity|]. split; [reflexivity|].
    unfold getItem, has_token, getItem; simpl.
    assert (A : delete "refreshToken" (delete "accessToken" (localStorage s))
                  !! "accessToken" = None).
    { rewrite lookup_delete_ne by discriminate. apply lookup_delete_eq. }
    repeat split.
    + exact A.
    + apply lookup_delete_eq.
    + intros key H1 H2. rewrite !lookup_delete_ne by congruence. reflexivity.
    + rewrite A. reflexivity.
  - cbn. repeat split; auto; discriminate.
Qed.


Lemma checkAuthStatus_outcome_witness :
  let s := initial {[ "accessToken" := "abc"; "theme" := "dark" ]} in
  let s' := state_after (checkAuthStatus (Rejected OtherValue)) s in
  getItem "accessToken" s' = None /\ getItem "theme" s' = Some "dark".
Proof.
  intros s s'.
  destruct (checkAuthStatus_outcome (Rejected OtherValue) s)
    as (_ & _ & _ & H).
  destruct (H eq_refl) as (_ & _ & A & _ & K & _).
  split; [exact A|].
  refine (eq_trans (K "theme" _ _) _); [discriminate | discriminate | reflexivity].
Defined.

(** X18.  [logout] removes both tokens, keeps every other item of the
    storage, forgets the user and goes to / without a request; a
    [checkAuthStatus] after it sends no request and leaves the user
    unauthenticated. *)
Theorem logout_then_checkAuthStatus (response : Settled (option Auth.User))
    (s : State) :
  let s1 := state_after logout s in
  let m := logout ;;; checkAuthStatus response in
  effects logout s = [Href "/"]
  /\ user s1 = None /\ has_token s1 = false
  /\ getItem "refreshToken" s1 = None
  /\ (forall key, key <> "accessToken" -> key <> "refreshToken" ->
        getItem key s1 = getItem key s)
  /\ requests (effects m s) = []
  /\ user (state_after m s) = None
  /\ isAuthenticated (state_after m s) = false.
Proof.
  intros s1 m. subst s1 m.
  assert (A : delete "refreshToken" (delete "accessToken" (localStorage s))
                !! "accessToken" = None).
  { rewrite lookup_delete_ne by discriminate. apply lookup_delete_eq. }
  assert (T : has_token (state_after logout s) = false).
  { unfold has_token, getItem. cbn. rewrite A. reflexivity. }
  split; [reflexivity|]. split; [reflexivity|]. split; [exact T|].
  split; [apply lookup_delete_eq|].
  split.
  { intros key H1 H2. unfold getItem. cbn.
    rewrite !lookup_delete_ne by congruence. reflexivity. }
  unfold state_after, effects, bind. 
  destruct (logout s) as [[e1 s1] r1] eqn:L.
  assert (E1 : e1 = [Href "/"]) by (cbv in L; congruence).
  assert (R1 : r1 = Some tt) by (cbv in L; congruence).
  assert (S1 : s1 = state_after logout s) by (unfold state_after; rewrite L; reflexivity).
  subst r1 e1.
  unfold checkAuthStatus. rewrite S1, T. cbn. auto.
Qed.

Lemma logout_then_checkAuthStatus_witness :
  let s := mkState (Some (Auth.mkUser "u1" "d1" "nick")) false
             {[ "accessToken" := "abc"; "theme" := "dark" ]} in
  getItem "theme" (state_after logout s) = Some "dark"
  /\ requests (effects (logout ;;; checkAuthStatus (Fulfilled None)) s) = [].
Proof.
  intros s.
  destruct (logout_then_checkAuthStatus (Fulfilled None) s)
    as (_ & _ & _ & _ & K & Q & _).
  split; [|exact Q].
  refine (eq_trans (K "theme" _ _) _); [discriminate | discriminate | reflexivity].
Defined.

End AuthFacts.

Section AuthCallbackFacts.
Import Js Effects Async.
Import AuthCallbackPage.


Lemma checkAuthStatus_spec (response : Settled (option Auth.User))
    (a : AuthContext.State) :
  AuthContext.checkAuthStatus response a
  = if AuthContext.has_token a then
      ([Request (mkCall GET "/api/v1/members/me" NoBody)],
       AuthContext.setIsLoading false
         (match response with
          | Fulfilled data => AuthContext.setUser data a
          | Rejected _ =>
              AuthContext.removeItem "refreshToken"
                (AuthContext.removeItem "accessToken" a)
          end),
       Some tt)
    else ([], AuthContext.setIsLoading false a, Some tt).
Proof.
  unfold AuthContext.checkAuthStatus.
  destruct (AuthContext.has_token a), response; reflexivity.
Qed.

Lemma has_token_stored (access refresh : string) (a : AuthContext.State) :
  AuthContext.has_token
    (AuthContext.setItem "refreshToken" refresh
       (AuthContext.setItem "accessToken" access a))
  = truthy access.
Proof.
  unfold AuthContext.has_token, AuthContext.getItem. simpl.
  rewrite lookup_insert_ne by discriminate. rewrite lookup_insert_eq.
  reflexivity.
Qed.

(** What [handleCallback] does, by the outcome of its requests. *)
Lemma handleCallback_spec (code : string) (guildId : option string)
    (callback : Settled (option Auth.TokenResponse))
    (me : Settled (option Auth.User)) (s : State) :
  let post := mkCall POST "/v1/auth/discord/callback" (CallbackBody code guildId) in
  handleCallback code guildId callback me s
  = match callback with
    | Fulfilled (Some tokens) =>
        let stored :=
          AuthContext.setItem "refreshToken" (Auth.refreshToken tokens)
            (AuthContext.setItem "accessToken" (Auth.accessToken tokens) (auth s)) in
        (Request post
           :: fst (fst (AuthContext.checkAuthStatus me stored))
           ++ [Navigate "/" true],
         setAuth (snd (fst (AuthContext.checkAuthStatus me stored))) s,
         Some tt)
    | _ =>
        ([Request post; ConsoleError "OAuth callback failed:"],
         setError (Some "Login failed. Please try again.") s, Some tt)
    end.
Proof.
  intros post. subst post. unfold handleCallback.
  destruct callback as [[tokens|]|e]; try reflexivity.
  cbv beta iota zeta delta
    [try_catch bind await in_auth modify emit AuthContext.refreshAuth].
  cbn [auth setAuth isProcessing error].
  rewrite checkAuthStatus_spec, has_token_stored.
  destruct (truthy (Auth.accessToken tokens)), me; reflexivity.
Qed.

(** X19.  [handleCallback] never throws and leaves the guard of the effect
    as it is.  When the callback request fails, or succeeds with a null
    payload, the failure is logged, the error is the login failure text,
    the storage is untouched and there is no navigation.  When it returns
    tokens, they are stored, the user is refreshed (with a GET of
    /api/v1/members/me when the access token is not empty) and the page
    navigates to /, replacing the entry, with no error set: after a refresh
    that succeeded the user is its payload and the tokens are stored; after a
    refresh that failed the tokens are removed again and the page navigates
    all the same. *)
Theorem handleCallback_outcome (code : string) (guildId : option string)
    (callback : Settled (option Auth.TokenResponse))
    (me : Settled (option Auth.User)) (s : State) :
  let m := handleCallback code guildId callback me in
  let s' := state_after m s in
  let post := mkCall POST "/v1/auth/discord/callback" (CallbackBody code guildId) in
  let get := mkCall GET "/api/v1/members/me" NoBody in
  result m s = Some tt
  /\ isProcessing s' = isProcessing s
  /\ match callback with
     | Fulfilled (Some tokens) =>
         error s' = error s
         /\ AuthContext.isLoading (auth s') = false
         /\ effects m s
            = Request post
                :: (if truthy (Auth.accessToken tokens) then [Request get] else [])
                ++ [Navigate "/" true]
         /\ (truthy (Auth.accessToken tokens) = true ->
             match me with
             | Fulfilled data =>
                 AuthContext.user (auth s') = data
                 /\ AuthContext.getItem "accessToken" (auth s')
                    = Some (Auth.accessToken tokens)
                 /\ AuthContext.getItem "refreshToken" (auth s')
                    = Some (Auth.refreshToken tokens)
             | Rejected _ =>
                 AuthContext.user (auth s') = AuthContext.user (auth s)
                 /\ AuthContext.getItem "accessToken" (auth s') = None
                 /\ AuthContext.getItem "refreshToken" (auth s') = None
             end)
         /\ (truthy (Auth.accessToken tokens) = false ->
             AuthContext.user (auth s') = AuthContext.user (auth s))
     | _ =>
         effects m s = [Request post; ConsoleError "OAuth callback failed:"]
         /\ s' = setError (Some "Login failed. Please try again.") s
     end.
Proof.
  intros m s' post get. subst m s' post get.
  unfold result, state_after, effects. rewrite handleCallback_spec.
  destruct callback as [[tokens|]|e]; cbn [fst snd]; try (repeat split; reflexivity).
  rewrite checkAuthStatus_spec, has_token_stored.
  destruct (truthy (Auth.accessToken tokens)) eqn:T; cbn.
  - split; [reflexivity|]. split; [reflexivity|]. split; [reflexivity|].
    split; [destruct me; reflexivity|]. split; [destruct me; reflexivity|].
    split; [|discriminate]. intros _.
    unfold AuthContext.getItem. destruct me as [data|err]; cbn.
    + split; [reflexivity|]. split.
      * rewrite lookup_insert_ne by discriminate. apply lookup_insert_eq.
      * apply lookup_insert_eq.
    + split; [reflexivity|]. split.
      * rewrite lookup_delete_ne by discriminate. apply lookup_delete_eq.
      * apply lookup_delete_eq.
  - repeat split; try reflexivity. discriminate.
Qed.

Lemma callback_effect_again (code guildId : option string)
    (callback : Settled (option Auth.TokenResponse))
    (me : Settled (option Auth.User)) (s : State) :
  let m := callback_effect code guildId callback me in
  result m s = Some tt
  /\ m (state_after m s) = ([], state_after m s, Some tt).
Proof.
  intros m. subst m. unfold result, state_after, callback_effect.
  destruct code as [c|]; [|split; reflexivity].
  destruct (truthy c) eqn:T; cbn [negb]; [|split; reflexivity].
  destruct (isProcessing s) eqn:P; cbn [fst snd].
  - cbn [ret fst snd]. rewrite P. split; reflexivity.
  - assert (E : (modify (setIsProcessing true) ;;;
                 handleCallback c guildId callback me) s
                = handleCallback c guildId callback me (setIsProcessing true s)).
    { unfold bind, modify.
      destruct (handleCallback c guildId callback me (setIsProcessing true s))
        as [[e2 s2] r2]. reflexivity. }
    rewrite E, handleCallback_spec.
    destruct callback as [[tokens|]|e]; cbn; split; reflexivity.
Qed.

Lemma callback_effects_once (n : nat) (code guildId : option string)
    (callback : Settled (option Auth.TokenResponse))
    (me : Settled (option Auth.User)) (s : State) :
  callback_effects (S n) code guildId callback me s
  = callback_effect code guildId callback me s.
Proof.
  revert s. induction n as [|n IH]; intros s.
  - destruct (callback_effect_again code guildId callback me s) as [R _].
    unfold result in R. cbn [callback_effects]. unfold bind.
    destruct (callback_effect code guildId callback me s) as [[e1 s1] r1].
    simpl in R. subst r1. cbn. rewrite app_nil_r. reflexivity.
  - destruct (callback_effect_again code guildId callback me s) as [R A].
    unfold result, state_after in R, A.
    change (callback_effects (S (S n)) code guildId callback me s)
      with ((callback_effect code guildId callback me ;;;
             callback_effects (S n) code guildId callback me) s).
    unfold bind at 1.
    destruct (callback_effect code guildId callback me s) as [[e1 s1] r1].
    simpl in R, A. subst r1. rewrite IH, A. rewrite app_nil_r. reflexivity.
Qed.

(** X20.  Running the effect of the callback page any number of times more
    does what running it once does.  Without a code (none, or empty) it
    sends nothing and sets the error to the missing code text.  With a code,
    if the guard is set it does nothing; otherwise it sets the guard and
    sends exactly one POST of the callback, however often it runs. *)
Theorem callback_effect_runs_once (n : nat) (code guildId : option string)
    (callback : Settled (option Auth.TokenResponse))
    (me : Settled (option Auth.User)) (s : State) :
  let m := callback_effects (S n) code guildId callback me in
  let s' := state_after m s in
  m s = callback_effect code guildId callback me s
  /\ result m s = Some tt
  /\ (code = None \/ code = Some "" ->
      effects m s = []
      /\ s' = setError (Some "Authorization code not found") s)
  /\ (forall c,
        code = Some c -> c <> "" ->
        if isProcessing s then effects m s = [] /\ s' = s
        else
          isProcessing s' = true
          /\ List.filter
               (fun call => match method call with POST => true | _ => false end)
               (requests (effects m s))
             = [mkCall POST "/v1/auth/discord/callback" (CallbackBody c guildId)]).
Proof.
  intros m s'. subst m s'. unfold result, state_after, effects.
  rewrite callback_effects_once.
  split; [reflexivity|].
  split; [apply (callback_effect_again code guildId callback me s)|].
  unfold callback_effect. split.
  - intros [-> | ->]; split; reflexivity.
  - intros c -> Hc.
    assert (T : truthy c = true) by (destruct c; [congruence | reflexivity]).
    rewrite T. cbn [negb].
    destruct (isProcessing s) eqn:P; [split; reflexivity|].
    assert (E : (modify (setIsProcessing true) ;;;
                 handleCallback c guildId callback me) s
                = handleCallback c guildId callback me (setIsProcessing true s)).
    { unfold bind, modify.
      destruct (handleCallback c guildId callback me (setIsProcessing true s))
        as [[e2 s2] r2]. reflexivity. }
    rewrite E, handleCallback_spec.
    destruct callback as [[tokens|]|e]; cbn [fst snd]; try (split; reflexivity).
    rewrite checkAuthStatus_spec.
    destruct (AuthContext.has_token _); split; reflexivity.
Qed.

Lemma callback_effect_runs_once_witness :
  let s := initial (AuthContext.initial ∅) in
  let m := callback_effects 2 (Some "abc") None
             (Fulfilled (Some (Auth.mkTokens "at" "rt"))) (Rejected OtherValue) in
  isProcessing (state_after m s) = true
  /\ List.filter
       (fun call => match method call with POST => true | _ => false end)
       (requests (effects m s))
     = [mkCall POST "/v1/auth/discord/callback" (CallbackBody "abc" None)].
Proof.
  intros s m.
  destruct (callback_effect_runs_once 1 (Some "abc") None
              (Fulfilled (Some (Auth.mkTokens "at" "rt"))) (Rejected OtherValue) s)
    as (_ & _ & _ & H).
  apply (H "abc"); [reflexivity | discriminate].
Defined.

Lemma handleCallback_outcome_witness :
  let s := initial (AuthContext.initial ∅) in
  let m := handleCallback "abc" None
             (Fulfilled (Some (Auth.mkTokens "at" "rt"))) (Rejected OtherValue) in
  AuthContext.getItem "accessToken" (auth (state_after m s)) = None
  /\ List.In (Navigate "/" true) (effects m s).
Proof.
  intros s m.
  destruct (handleCallback_outcome "abc" None
              (Fulfilled (Some (Auth.mkTokens "at" "rt"))) (Rejected OtherValue) s)
    as (_ & _ & _ & _ & E & H & _).
  split; [apply (H eq_refl)|].
  unfold m. rewrite E. simpl. auto.
Defined.

End AuthCallbackFacts.

Section TagListFacts.
Import Js Effects Async.
Import TagList.






(** X23.  [addTag] never throws.  With a blank input it does nothing.
    Otherwise it sends one POST with the trimmed input: on failure the
    failure is logged and the state, the input included, is untouched; on
    success the list is the list of its render followed by the created tag
    and the input is cleared.  A second [addTag] of the same render that
    succeeds afterwards writes the list of that render followed by its own
    tag: the tag added first is no longer in the list. *)
Theorem addTag_outcome (r s : State) (response : Settled Tag) :
  let m := addTag r response in
  let s' := state_after m s in
  result m s = Some tt
  /\ (all_ws (newTag r) = true -> effects m s = [] /\ s' = s)
  /\ (all_ws (newTag r) = false ->
      requests (effects m s)
      = [mkCall POST "/api/v1/tags" (NameBody (trim (newTag r)))]
      /\ match response with
         | Fulfilled data =>
             tags s' = tags r ++ [data] /\ newTag s' = ""
             /\ loading s' = loading s
             /\ forall data2,
                  tags (state_after (addTag r (Fulfilled data2)) s')
                  = tags r ++ [data2]
         | Rejected _ =>
             s' = s /\ List.In (ConsoleError "Failed to add tag:") (effects m s)
         end).
Proof.
  intros m s'. subst m s'. unfold addTag. rewrite truthy_trim, negb_involutive.
  destruct (all_ws (newTag r)) eqn:B.
  - cbn. repeat split; auto; discriminate.
  - destruct response as [data|e]; cbn; repeat split; auto; discriminate.
Qed.

Lemma addTag_outcome_witness :
  let r := mkState [mkTag 1 "lol" true] " fps " false in
  let s' := state_after (addTag r (Fulfilled (mkTag 2 "fps" true))) r in
  requests (effects (addTag r (Fulfilled (mkTag 2 "fps" true))) r)
  = [mkCall POST "/api/v1/tags" (NameBody "fps")]
  /\ tags (state_after (addTag r (Fulfilled (mkTag 3 "rpg" true))) s')
     = [mkTag 1 "lol" true; mkTag 3 "rpg" true].
Proof.
  intros r s'.
  destruct (addTag_outcome r r (Fulfilled (mkTag 2 "fps" true))) as (_ & _ & H).
  destruct (H eq_refl) as (Q & _ & _ & _ & L).
  split; [exact Q | exact (L (mkTag 3 "rpg" true))].
Defined.

End TagListFacts.
